(** * PyRPOD: plume-strike detection and sliding-window constraints

    A shallow embedding of [RPOD.update_window_queue],
    [RPOD.update_parameter_queue] and [RPOD.jfh_plume_strikes]
    (src/pyrpod/RPOD.py).

    Numbers.  The source computes with numpy [float64].  They are idealised
    here as real numbers ([R]): sums, products and comparisons are exact.
    The one non-finite value that the strike test can produce, [nan], is kept
    explicit: a quantity that can be [nan] has type [option R] and [None]
    stands for [nan].  As in numpy, dividing by zero raises no exception, the
    arccosine of a value outside [-1, 1] is [nan], [nan] propagates through
    arithmetic, and every ordered comparison with [nan] is false.

    Queues.  A [queue.Queue] is a list whose head is the oldest entry:
    [put] appends at the end, [get] removes the head.  [get] on an empty
    queue blocks forever; functions that call [get] return [option] and
    [None] stands for that blocked call. *)

From Stdlib Require Import Reals Machin Lra Lia List Bool Arith.
From Stdlib Require String.
Import ListNotations.
Local Open Scope R_scope.

(** ** Vectors and matrices (numpy arrays of shape (3,) and (3,3)) *)

Record vec : Type := Vec { vx : R; vy : R; vz : R }.

Record mat3 : Type := Mat { row0 : vec; row1 : vec; row2 : vec }.

Definition vadd (a b : vec) : vec :=
  Vec (vx a + vx b) (vy a + vy b) (vz a + vz b).

Definition vsub (a b : vec) : vec :=
  Vec (vx a - vx b) (vy a - vy b) (vz a - vz b).

(** [np.dot] on two vectors. *)
Definition dot (a b : vec) : R :=
  vx a * vx b + vy a * vy b + vz a * vz b.

(** [np.sqrt(v[0]**2 + v[1]**2 + v[2]**2)], also [np.linalg.norm]. *)
Definition norm (v : vec) : R :=
  sqrt (vx v ^ 2 + vy v ^ 2 + vz v ^ 2).

Definition transpose (m : mat3) : mat3 :=
  Mat (Vec (vx (row0 m)) (vx (row1 m)) (vx (row2 m)))
      (Vec (vy (row0 m)) (vy (row1 m)) (vy (row2 m)))
      (Vec (vz (row0 m)) (vz (row1 m)) (vz (row2 m))).

(** [a.dot(b)] on two matrices: entry (i, j) is row i of [a] times column j
    of [b]. *)
Definition mdot (a b : mat3) : mat3 :=
  let bt := transpose b in
  let line (r : vec) := Vec (dot r (row0 bt)) (dot r (row1 bt)) (dot r (row2 bt)) in
  Mat (line (row0 a)) (line (row1 a)) (line (row2 a)).

Definition identity3 : mat3 :=
  Mat (Vec 1 0 0) (Vec 0 1 0) (Vec 0 0 1).

(** ** numpy operations that can yield [nan] *)

(** [v / n]: no guard and no exception.  The divisor is always the norm of
    [v] in this program, so a zero divisor means a zero dividend and every
    component is 0/0 = [nan]. *)
Definition np_divide (v : vec) (n : R) : option vec :=
  if Req_dec_T n 0 then None
  else Some (Vec (vx v / n) (vy v / n) (vz v / n)).

(** [np.dot(a, b)] where either argument may hold [nan]. *)
Definition np_dot (a b : option vec) : option R :=
  match a, b with
  | Some u, Some v => Some (dot u v)
  | _, _ => None
  end.

(** [np.arccos]: [nan] outside [-1, 1] and on [nan]. *)
Definition np_arccos (x : option R) : option R :=
  match x with
  | Some v =>
      if Rle_dec (-1) v then
        if Rle_dec v 1 then Some (acos v) else None
      else None
  | None => None
  end.

(** [c - x] for a finite constant [c]. *)
Definition np_rsub (c : R) (x : option R) : option R :=
  match x with
  | Some v => Some (c - v)
  | None => None
  end.

(** [x < y]: false when [x] is [nan]. *)
Definition np_lt (x : option R) (y : R) : bool :=
  match x with
  | Some v => if Rlt_dec v y then true else false
  | None => false
  end.

Definition Rltb (x y : R) : bool := if Rlt_dec x y then true else false.
Definition Rgtb (x y : R) : bool := if Rgt_dec x y then true else false.
Definition Rneqb (x y : R) : bool := if Req_dec_T x y then false else true.

(** ** Sliding-window queues *)

Definition sum_queue (q : list R) : R := fold_right Rplus 0 q.

(** The [while cur_window > window_size] loop of [update_window_queue];
    [None] when [get] is called on an empty queue. *)
Fixpoint evict_window (window_queue : list R) (cur_window window_size : R)
    (get_counter : nat) {struct window_queue} : option (list R * R * nat) :=
  if Rgt_dec cur_window window_size then
    match window_queue with
    | [] => None
    | old_firing_time :: rest =>
        evict_window rest (cur_window - old_firing_time) window_size (S get_counter)
    end
  else Some (window_queue, cur_window, get_counter).

Definition update_window_queue (window_queue : list R)
    (cur_window firing_time window_size : R) : option (list R * R * nat) :=
  evict_window (window_queue ++ [firing_time]) (cur_window + firing_time)
    window_size 0.

(** [for i in range(get_counter)]: pop the oldest entry and subtract it. *)
Fixpoint update_parameter_queue (param_queue : list R) (param_window_sum : R)
    (get_counter : nat) {struct get_counter} : option (list R * R) :=
  match get_counter with
  | O => Some (param_queue, param_window_sum)
  | S n =>
      match param_queue with
      | [] => None
      | old_param :: rest =>
          update_parameter_queue rest (param_window_sum - old_param) n
      end
  end.

(** ** Study assets *)

(** [config['pm']['kinetics']]: the source tests it against the strings
    'None' and "Simplified"; any other string allocates the load arrays but
    never calls a kinetics model. *)
Inductive kinetics_mode : Type := KNone | KSimplified | KOther.

Record config : Type := Config {
  plume_radius : R;                    (* config['plume']['radius'] *)
  plume_wedge_theta : R;               (* config['plume']['wedge_theta'] *)
  pm_kinetics : kinetics_mode;         (* config['pm']['kinetics'] *)
  tv_check_constraints : bool;         (* int(config['tv']['check_constraints']) *)
  tv_surface_temp : R;
  tv_sigma : R;
  tv_normal_pressure : R;
  tv_shear_pressure : R;
  tv_heat_flux : R;
  tv_normal_pressure_load : R;
  tv_heat_flux_load : R;
  tv_normal_pressure_window_size : R;
  tv_heat_flux_window_size : R
}.

(** Kinetic parameters of a thruster type, passed to the kinetics model as
    they are. *)
Definition metrics : Type := list (String.string * R).

Record thruster : Type := Thruster {
  th_dcm : mat3;
  th_exit : vec;
  th_type : String.string
}.

(** [self.vv].  [thruster_data n] is the catalogue record that the source
    reaches for the JFH thruster number [n] through its [link] table
    ([thruster_data[link[str(n)][0]]]); a number that is not in the catalogue
    raises [KeyError] in the source and is outside this model. *)
Record visiting_vehicle : Type := Vehicle {
  thruster_data : nat -> thruster;
  thruster_metrics : String.string -> metrics
}.

(** One triangle of [target.vectors] with its row of
    [target.get_unit_normals()]. *)
Record face : Type := Face {
  vertex0 : vec;
  vertex1 : vec;
  vertex2 : vec;
  unit_normal : vec
}.

(** One entry of [self.jfh.JFH]. *)
Record firing : Type := Firing {
  f_t : R;
  f_xyz : vec;
  f_dcm : mat3;
  f_thrusters : list nat
}.

(** What a [SimplifiedGasKinetics] object answers. *)
Record simple_plume : Type := SimplePlume {
  get_pressure : R;
  get_shear_pressure : R;
  get_heat_flux : R
}.

(** [self]: the assets of one study.  The kinetics model lives in
    pyrpod/RarefiedPlumeGasKinetics.py and is taken as it is:
    [SimplifiedGasKinetics norm_distance theta thruster_metrics T_w sigma]. *)
Record RPOD : Type := Study {
  cfg : config;
  vv : visiting_vehicle;
  target : list face;
  jfh : list firing;
  SimplifiedGasKinetics : R -> R -> metrics -> R -> R -> simple_plume
}.

(** ** Strike geometry of one face for one thruster (lines 597-641) *)

Definition mean3 (a b c : R) : R := (a + b + c) / 3.

Definition centroid (fc : face) : vec :=
  Vec (mean3 (vx (vertex0 fc)) (vx (vertex1 fc)) (vx (vertex2 fc)))
      (mean3 (vy (vertex0 fc)) (vy (vertex1 fc)) (vy (vertex2 fc)))
      (mean3 (vz (vertex0 fc)) (vz (vertex1 fc)) (vz (vertex2 fc))).

Definition distance (thruster_pos : vec) (fc : face) : vec :=
  vsub thruster_pos (centroid fc).

Definition norm_distance (thruster_pos : vec) (fc : face) : R :=
  norm (distance thruster_pos fc).

Definition unit_distance (thruster_pos : vec) (fc : face) : option vec :=
  np_divide (distance thruster_pos fc) (norm_distance thruster_pos fc).

Definition unit_plume_normal (plume_normal : vec) : option vec :=
  np_divide plume_normal (norm plume_normal).

(** The literal of the source: [theta = 3.14 - np.arccos(...)]. *)
Definition theta_offset : R := 314 / 100.

Definition theta (thruster_pos plume_normal : vec) (fc : face) : option R :=
  np_rsub theta_offset
    (np_arccos (np_dot (unit_distance thruster_pos fc)
                       (unit_plume_normal plume_normal))).

(** The angle from the plume centre line as the specification words it:
    pi - arccos(dot(unit_distance, unit_plume_axis)).  It is kept beside
    [theta] to compare the two; the source has the literal 3.14 for pi. *)
Definition specified_theta (thruster_pos plume_normal : vec) (fc : face)
    : option R :=
  np_rsub PI
    (np_arccos (np_dot (unit_distance thruster_pos fc)
                       (unit_plume_normal plume_normal))).

Definition surface_dot_plume (plume_normal : vec) (fc : face) : option R :=
  np_dot (Some (unit_normal fc)) (unit_plume_normal plume_normal).

Definition within_distance (c : config) (thruster_pos : vec) (fc : face) : bool :=
  Rltb (norm_distance thruster_pos fc) (plume_radius c).

Definition within_theta (c : config) (thruster_pos plume_normal : vec)
    (fc : face) : bool :=
  np_lt (theta thruster_pos plume_normal fc) (plume_wedge_theta c).

Definition facing_thruster (plume_normal : vec) (fc : face) : bool :=
  np_lt (surface_dot_plume plume_normal fc) 0.

(** [within_distance and within_theta and facing_thruster]. *)
Definition plume_strike (c : config) (thruster_pos plume_normal : vec)
    (fc : face) : bool :=
  within_distance c thruster_pos fc
  && within_theta c thruster_pos plume_normal fc
  && facing_thruster plume_normal fc.

(** The angle handed to the kinetics model.  It is read only after a strike,
    where [theta] is not [nan]. *)
Definition theta_value (thruster_pos plume_normal : vec) (fc : face) : R :=
  match theta thruster_pos plume_normal fc with
  | Some t => t
  | None => 0
  end.

(** ** Per-cell state

    The source keeps one numpy array per quantity, indexed by face; a [cell]
    is the column of those arrays at one index, with the two queues of that
    face.  [strikes] and [cum_strikes] hold whole numbers. *)
Record cell : Type := Cell {
  strikes : nat;
  cum_strikes : nat;
  pressures : R;
  max_pressures : R;
  shear_stresses : R;
  max_shears : R;
  heat_flux : R;
  heat_flux_load : R;
  cum_heat_flux_load : R;
  pressure_queue : list R;
  pressure_window_sum : R;
  heat_flux_queue : list R;
  heat_flux_window_sum : R
}.

(** [np.zeros] for every array, an empty [Queue] per face. *)
Definition new_cell : cell := Cell 0 0 0 0 0 0 0 0 0 [] 0 [] 0.

(** Lines 539-551: the per-firing arrays start at zero. *)
Definition reset_cell (c : cell) : cell :=
  Cell 0 (cum_strikes c) 0 (max_pressures c) 0 (max_shears c) 0 0
       (cum_heat_flux_load c)
       (pressure_queue c) (pressure_window_sum c)
       (heat_flux_queue c) (heat_flux_window_sum c).

(** Lines 644-645. *)
Definition record_strike (c : cell) : cell :=
  Cell 1 (cum_strikes c + 1) (pressures c) (max_pressures c)
       (shear_stresses c) (max_shears c) (heat_flux c) (heat_flux_load c)
       (cum_heat_flux_load c)
       (pressure_queue c) (pressure_window_sum c)
       (heat_flux_queue c) (heat_flux_window_sum c).

(** Lines 655-667. *)
Definition record_loads (firing_time : R) (sp : simple_plume) (c : cell) : cell :=
  let p := pressures c + get_pressure sp in
  let s := shear_stresses c + Rabs (get_shear_pressure sp) in
  let heat_flux_cur := get_heat_flux sp in
  Cell (strikes c) (cum_strikes c)
       p (if Rgt_dec p (max_pressures c) then p else max_pressures c)
       s (if Rgt_dec s (max_shears c) then s else max_shears c)
       (heat_flux c + heat_flux_cur)
       (heat_flux_load c + heat_flux_cur * firing_time)
       (cum_heat_flux_load c + heat_flux_cur * firing_time)
       (pressure_queue c) (pressure_window_sum c)
       (heat_flux_queue c) (heat_flux_window_sum c).

(** The body of [for i, face in enumerate(target.vectors)] for one face. *)
Definition strike_face (self : RPOD) (firing_time : R) (thr : thruster)
    (thruster_pos plume_normal : vec) (fc : face) (c : cell) : cell :=
  if plume_strike (cfg self) thruster_pos plume_normal fc then
    match pm_kinetics (cfg self) with
    | KSimplified =>
        let T_w := tv_surface_temp (cfg self) in
        let sigma := tv_sigma (cfg self) in
        let thruster_metrics := thruster_metrics (vv self) (th_type thr) in
        let simple_plume :=
          SimplifiedGasKinetics self (norm_distance thruster_pos fc)
            (theta_value thruster_pos plume_normal fc) thruster_metrics T_w sigma in
        record_loads firing_time simple_plume (record_strike c)
    | _ => record_strike c
    end
  else c.

Fixpoint strike_faces (step : face -> cell -> cell) (faces : list face)
    (cells : list cell) : list cell :=
  match faces, cells with
  | fc :: faces', c :: cells' => step fc c :: strike_faces step faces' cells'
  | _, _ => []
  end.

Definition plume_normal_of (fr : firing) (thr : thruster) : vec :=
  let vv_orientation := transpose (f_dcm fr) in
  let thruster_orientation := mdot (transpose (th_dcm thr)) vv_orientation in
  row0 thruster_orientation.

Definition thruster_pos_of (fr : firing) (thr : thruster) : vec :=
  vadd (f_xyz fr) (th_exit thr).

(** The body of [for thruster in thrusters] (lines 563-667). *)
Definition fire_thruster (self : RPOD) (fr : firing) (cells : list cell)
    (n : nat) : list cell :=
  let thr := thruster_data (vv self) n in
  strike_faces
    (strike_face self (f_t fr) thr (thruster_pos_of fr thr) (plume_normal_of fr thr))
    (target self) cells.

(** Lines 539-667: reset, then every active thruster in turn. *)
Definition strike_phase (self : RPOD) (fr : firing) (cells : list cell) : list cell :=
  fold_left (fire_thruster self fr) (f_thrusters fr) (map reset_cell cells).

(** ** Constraint windows and the impingement report *)

Inductive constraint_kind : Type :=
  Pressure | Shear | HeatFlux | PressureWindow | HeatFluxWindow.

(** One [constraint_file.write] call.  [FailedAtCell k n] is the line
    "<k> constraint failed at cell #<n>.", [Reached k v] is the line
    "<k> reached <v>." and [AllConstraintsMet] is
    "All impingement constraints met.". *)
Inductive report_line : Type :=
| FailedAtCell (k : constraint_kind) (cell_number : nat)
| Reached (k : constraint_kind) (value : R)
| AllConstraintsMet.

(** Lines 675-680, one iteration. *)
Definition push_cell (c : cell) : cell :=
  Cell (strikes c) (cum_strikes c) (pressures c) (max_pressures c)
       (shear_stresses c) (max_shears c) (heat_flux c) (heat_flux_load c)
       (cum_heat_flux_load c)
       (pressure_queue c ++ [pressures c]) (pressure_window_sum c + pressures c)
       (heat_flux_queue c ++ [heat_flux_load c])
       (heat_flux_window_sum c + heat_flux_load c).

Definition queue_empty (q : list R) : bool :=
  match q with [] => true | _ :: _ => false end.

Definition set_pressure_window (c : cell) (w : list R * R) : cell :=
  Cell (strikes c) (cum_strikes c) (pressures c) (max_pressures c)
       (shear_stresses c) (max_shears c) (heat_flux c) (heat_flux_load c)
       (cum_heat_flux_load c) (fst w) (snd w)
       (heat_flux_queue c) (heat_flux_window_sum c).

Definition set_heat_flux_window (c : cell) (w : list R * R) : cell :=
  Cell (strikes c) (cum_strikes c) (pressures c) (max_pressures c)
       (shear_stresses c) (max_shears c) (heat_flux c) (heat_flux_load c)
       (cum_heat_flux_load c) (pressure_queue c) (pressure_window_sum c)
       (fst w) (snd w).

(** Lines 689-693 for one [queue_index]. *)
Definition evict_cell (pressure_get_counter heat_flux_get_counter : nat)
    (c : cell) : option cell :=
  match
    (if negb (queue_empty (pressure_queue c)) then
       option_map (set_pressure_window c)
         (update_parameter_queue (pressure_queue c) (pressure_window_sum c)
            pressure_get_counter)
     else Some c)
  with
  | None => None
  | Some c1 =>
      if negb (queue_empty (heat_flux_queue c1))
         && Rneqb (heat_flux_window_sum c1) 0 then
        option_map (set_heat_flux_window c1)
          (update_parameter_queue (heat_flux_queue c1) (heat_flux_window_sum c1)
             heat_flux_get_counter)
      else Some c1
  end.

(** One [if <value> > <threshold> and not failed_constraints:] block: two
    lines are written and the flag is set.  The state is the pair
    ([failed_constraints], lines written so far). *)
Definition check (k : constraint_kind) (cell_number : nat) (value threshold : R)
    (s : bool * list report_line) : bool * list report_line :=
  if Rgtb value threshold && negb (fst s) then
    (true, snd s ++ [FailedAtCell k cell_number; Reached k value])
  else s.

(** Lines 695-717 for one [queue_index].  The three instantaneous messages
    print the variable [i], which the loop of line 675 left at its last
    value; the two window messages print [queue_index]. *)
Definition check_constraints (c : config) (i queue_index : nat) (x : cell)
    (s : bool * list report_line) : bool * list report_line :=
  let s1 := check Pressure i (pressures x) (tv_normal_pressure c) s in
  let s2 := check Shear i (shear_stresses x) (tv_shear_pressure c) s1 in
  let s3 := check HeatFlux i (heat_flux x) (tv_heat_flux c) s2 in
  let s4 := check PressureWindow queue_index (pressure_window_sum x)
              (tv_normal_pressure_load c) s3 in
  check HeatFluxWindow queue_index (heat_flux_window_sum x)
    (tv_heat_flux_load c) s4.

(** [for queue_index in range(len(pressure_queues))] (lines 688-717),
    started at [queue_index] on the cells not yet visited. *)
Fixpoint constraint_pass (c : config) (i : nat)
    (pressure_get_counter heat_flux_get_counter : nat) (queue_index : nat)
    (cells : list cell) (s : bool * list report_line)
    : option (list cell * (bool * list report_line)) :=
  match cells with
  | [] => Some ([], s)
  | x :: rest =>
      match evict_cell pressure_get_counter heat_flux_get_counter x with
      | None => None
      | Some x' =>
          match
            constraint_pass c i pressure_get_counter heat_flux_get_counter
              (S queue_index) rest (check_constraints c i queue_index x' s)
          with
          | None => None
          | Some (rest', s') => Some (x' :: rest', s')
          end
      end
  end.

(** Everything [jfh_plume_strikes] carries from one firing to the next. *)
Record run_state : Type := RunState {
  cells : list cell;
  pressure_window_queue : list R;
  pressure_cur_window : R;
  heat_flux_window_queue : list R;
  heat_flux_cur_window : R;
  failed_constraints : bool;
  constraint_file : list report_line
}.

Definition init_state (self : RPOD) : run_state :=
  RunState (map (fun _ => new_cell) (target self)) [] 0 [] 0 false [].

(** [config['pm']['kinetics'] != 'None' and checking_constraints]. *)
Definition constraints_on (c : config) : bool :=
  match pm_kinetics c with
  | KNone => false
  | _ => tv_check_constraints c
  end.

(** One iteration of [for firing in range(len(self.jfh.JFH))].  The cells of
    the result are what [convert_stl_to_vtk_strikes] is given for this
    firing. *)
Definition process_firing (self : RPOD) (st : run_state) (fr : firing)
    : option run_state :=
  let firing_time := f_t fr in
  let struck := strike_phase self fr (cells st) in
  if constraints_on (cfg self) then
    let pushed := map push_cell struck in
    match
      update_window_queue (pressure_window_queue st) (pressure_cur_window st)
        firing_time (tv_normal_pressure_window_size (cfg self))
    with
    | None => None
    | Some (pq, pw, pressure_get_counter) =>
        match
          update_window_queue (heat_flux_window_queue st)
            (heat_flux_cur_window st) firing_time
            (tv_heat_flux_window_size (cfg self))
        with
        | None => None
        | Some (hq, hw, heat_flux_get_counter) =>
            match
              constraint_pass (cfg self) (Nat.pred (length pushed))
                pressure_get_counter heat_flux_get_counter 0 pushed
                (failed_constraints st, constraint_file st)
            with
            | None => None
            | Some (cs, (failed, file)) =>
                Some (RunState cs pq pw hq hw failed file)
            end
        end
    end
  else
    Some (RunState struck (pressure_window_queue st) (pressure_cur_window st)
            (heat_flux_window_queue st) (heat_flux_cur_window st)
            (failed_constraints st) (constraint_file st)).

(** The firing loop on a list of firings, from state [st]. *)
Fixpoint replay (self : RPOD) (firings : list firing) (st : run_state)
    : option run_state :=
  match firings with
  | [] => Some st
  | fr :: rest =>
      match process_firing self st fr with
      | None => None
      | Some st' => replay self rest st'
      end
  end.

(** The state after the first [n] firings of the JFH. *)
Definition state_after (self : RPOD) (n : nat) : option run_state :=
  replay self (firstn n (jfh self)) (init_state self).

(** Lines 740-743. *)
Definition close_report (c : config) (st : run_state) : list report_line :=
  if constraints_on c then
    if negb (failed_constraints st) then
      constraint_file st ++ [AllConstraintsMet]
    else constraint_file st
  else constraint_file st.

(** The whole method: the final state and the impingement report. *)
Definition jfh_plume_strikes (self : RPOD) : option (run_state * list report_line) :=
  match replay self (jfh self) (init_state self) with
  | None => None
  | Some st => Some (st, close_report (cfg self) st)
  end.

(** ** Reading a violation back from the state *)


Definition threshold (c : config) (k : constraint_kind) : R :=
  match k with
  | Pressure => tv_normal_pressure c
  | Shear => tv_shear_pressure c
  | HeatFlux => tv_heat_flux c
  | PressureWindow => tv_normal_pressure_load c
  | HeatFluxWindow => tv_heat_flux_load c
  end.


(** The index of the firing during which [failed_constraints] was set, for
    a replay that starts at [index] with the flag clear. *)
Fixpoint first_failed_firing (self : RPOD) (firings : list firing)
    (st : run_state) (index : nat) : option nat :=
  match firings with
  | [] => None
  | fr :: rest =>
      match process_firing self st fr with
      | None => None
      | Some st' =>
          if failed_constraints st' then Some index
          else first_failed_firing self rest st' (S index)
      end
  end.

Definition violation_firing (self : RPOD) : option nat :=
  first_failed_firing self (jfh self) (init_state self) 0.

(** How many of the thrusters of a firing strike a face. *)
Definition striking_thrusters (self : RPOD) (fr : firing) (fc : face) : nat :=
  length
    (filter
       (fun n =>
          let thr := thruster_data (vv self) n in
          plume_strike (cfg self) (thruster_pos_of fr thr) (plume_normal_of fr thr) fc)
       (f_thrusters fr)).

(** One face seen through a whole firing: the cell of face [fc] after the
    reset and after every active thruster of [fr] had its turn (the loops of
    lines 563 and 594 with the face held fixed). *)
Definition struck_cell (self : RPOD) (fr : firing) (fc : face) (c : cell) : cell :=
  fold_left
    (fun x n =>
       let thr := thruster_data (vv self) n in
       strike_face self (f_t fr) thr (thruster_pos_of fr thr)
         (plume_normal_of fr thr) fc x)
    (f_thrusters fr) (reset_cell c).

(** ** Invariants *)

(** The two queues and the two window sums of a cell are the same in [c']
    as in [c]. *)
Definition same_windows (c c' : cell) : Prop :=
  pressure_queue c' = pressure_queue c
  /\ pressure_window_sum c' = pressure_window_sum c
  /\ heat_flux_queue c' = heat_flux_queue c
  /\ heat_flux_window_sum c' = heat_flux_window_sum c.

(** The nine per-face array entries are the same in [c'] as in [c]. *)
Definition same_loads (c c' : cell) : Prop :=
  strikes c' = strikes c
  /\ cum_strikes c' = cum_strikes c
  /\ pressures c' = pressures c
  /\ max_pressures c' = max_pressures c
  /\ shear_stresses c' = shear_stresses c
  /\ max_shears c' = max_shears c
  /\ heat_flux c' = heat_flux c
  /\ heat_flux_load c' = heat_flux_load c
  /\ cum_heat_flux_load c' = cum_heat_flux_load c.

(** Each window sum of a cell is the sum of the entries of its queue. *)
Definition sums_exact (c : cell) : Prop :=
  pressure_window_sum c = sum_queue (pressure_queue c)
  /\ heat_flux_window_sum c = sum_queue (heat_flux_queue c).

(** What the code keeps for one cell against the two timeline queues [pq]
    (pressure) and [hq] (heat flux): exact sums, a pressure queue as long as
    [pq], and a heat-flux queue at least as long as [hq]. *)
Definition cell_window_inv (pq hq : list R) (c : cell) : Prop :=
  sums_exact c
  /\ length (pressure_queue c) = length pq
  /\ (length hq <= length (heat_flux_queue c))%nat.

Definition timeline_exact (st : run_state) : Prop :=
  pressure_cur_window st = sum_queue (pressure_window_queue st)
  /\ heat_flux_cur_window st = sum_queue (heat_flux_window_queue st).

Definition window_invariant (st : run_state) : Prop :=
  timeline_exact st
  /\ Forall (cell_window_inv (pressure_window_queue st) (heat_flux_window_queue st))
       (cells st).

(** The invariant as the specification words it: exact sums, and every
    queue of a quantity as long as the timeline queue of that quantity. *)
Definition specified_window_invariant (st : run_state) : Prop :=
  Forall
    (fun c =>
       sums_exact c
       /\ length (pressure_queue c) = length (pressure_window_queue st)
       /\ length (heat_flux_queue c) = length (heat_flux_window_queue st))
    (cells st).

(** The four accumulated quantities of a cell did not decrease from [c] to
    [c']. *)
Definition non_decreasing (c c' : cell) : Prop :=
  (cum_strikes c <= cum_strikes c')%nat
  /\ cum_heat_flux_load c <= cum_heat_flux_load c'
  /\ max_pressures c <= max_pressures c'
  /\ max_shears c <= max_shears c'.

(** The kinetics model of the study never answers a negative heat-flux
    rate. *)
Definition heat_flux_nonneg (self : RPOD) : Prop :=
  forall (d th : R) (m : metrics) (T_w sigma : R),
    0 <= get_heat_flux (SimplifiedGasKinetics self d th m T_w sigma).

(** The kinetics model of the study never answers a negative pressure. *)
Definition pressure_nonneg (self : RPOD) : Prop :=
  forall (d th : R) (m : metrics) (T_w sigma : R),
    0 <= get_pressure (SimplifiedGasKinetics self d th m T_w sigma).

(** ** The report and the first violation *)





(** ** Worked scenarios

    One thruster at the origin of the vehicle frame firing along +X, and one
    face whose centroid is (1/2, 0, 0) and whose unit normal is -X, so that
    the face is on the plume axis, half a unit from the exit, and turned
    towards the thruster.  The kinetics model of the scenarios answers
    pressure 5, shear 0 and heat-flux rate 1/2 for every strike. *)

Definition axis_thruster : thruster :=
  Thruster identity3 (Vec 0 0 0) String.EmptyString.

Definition one_thruster : visiting_vehicle :=
  Vehicle (fun _ => axis_thruster) (fun _ => []).

Definition axis_face : face :=
  Face (Vec (1/2) 1 0) (Vec (1/2) (-1) 1) (Vec (1/2) 0 (-1)) (Vec (-1) 0 0).

Definition steady_plume : R -> R -> metrics -> R -> R -> simple_plume :=
  fun _ _ _ _ _ => SimplePlume 5 0 (1/2).

(** Radius 1, wedge half-angle 0.2 rad, both windows 15 s long, and
    [limit] for the five thresholds. *)
Definition scenario_config (limit : R) : config :=
  Config 1 (2/10) KSimplified true 300 1 limit limit limit limit limit 15 15.

(** The vehicle at [xyz], unrotated, firing the thrusters [active] for
    [t] seconds. *)
Definition firing_at (xyz : vec) (t : R) (active : list nat) : firing :=
  Firing t xyz identity3 active.

Definition origin : vec := Vec 0 0 0.

Definition scenario (limit : R) (firings : list firing) : RPOD :=
  Study (scenario_config limit) one_thruster [axis_face] firings steady_plume.

(** A second face, five units down the plume axis: out of the plume radius
    of the scenarios. *)
Definition far_face : face :=
  Face (Vec 5 1 0) (Vec 5 (-1) 1) (Vec 5 0 (-1)) (Vec (-1) 0 0).

(** A face half a unit from the origin whose centroid lies at the angle
    [phi] from the +X axis, in the X-Y plane, turned towards -X as
    [axis_face] is. *)
Definition off_axis_face (phi : R) : face :=
  Face (Vec (cos phi / 2) (sin phi / 2 + 1) 0)
       (Vec (cos phi / 2) (sin phi / 2 - 1) 1)
       (Vec (cos phi / 2) (sin phi / 2) (-1))
       (Vec (-1) 0 0).

(** The scenario with the two faces, the near one at index 0. *)
Definition two_face_scenario (limit : R) (firings : list firing) : RPOD :=
  Study (scenario_config limit) one_thruster [axis_face; far_face] firings
    steady_plume.

(** * Further functions of the two modules *)

(** ** [rotation_matrix_from_vectors] (RPOD.py, lines 21-33) *)

(** [np.cross]. *)
Definition cross (a b : vec) : vec :=
  Vec (vy a * vz b - vz a * vy b)
      (vz a * vx b - vx a * vz b)
      (vx a * vy b - vy a * vx b).

(** [np.array([[0, -v[2], v[1]], [v[2], 0, -v[0]], [-v[1], v[0], 0]])]. *)
Definition kmat (v : vec) : mat3 :=
  Mat (Vec 0 (- vz v) (vy v))
      (Vec (vz v) 0 (- vx v))
      (Vec (- vy v) (vx v) 0).

Definition vscale (k : R) (v : vec) : vec :=
  Vec (k * vx v) (k * vy v) (k * vz v).

Definition madd (a b : mat3) : mat3 :=
  Mat (vadd (row0 a) (row0 b)) (vadd (row1 a) (row1 b)) (vadd (row2 a) (row2 b)).

(** [m * k] for a scalar [k]. *)
Definition mscale (k : R) (m : mat3) : mat3 :=
  Mat (vscale k (row0 m)) (vscale k (row1 m)) (vscale k (row2 m)).

(** The matrix applied to a column vector. *)
Definition mapply (m : mat3) (v : vec) : vec :=
  Vec (dot (row0 m) v) (dot (row1 m) v) (dot (row2 m) v).

(** [None] stands for a matrix whose nine entries are [nan].  That is what
    numpy produces when a vector is zero (its unit vector is 0/0), and when
    the cross product [v] of the two unit vectors is zero: then [kmat] is
    zero, [s] is zero, the factor [(1 - c) / s ** 2] divides by zero, and the
    product of that factor with the zero entries of [kmat.dot(kmat)] is
    [nan]. *)
Definition rotation_matrix_from_vectors (vec1 vec2 : vec) : option mat3 :=
  match np_divide vec1 (norm vec1), np_divide vec2 (norm vec2) with
  | Some a, Some b =>
      let v := cross a b in
      let c := dot a b in
      let s := norm v in
      if Req_dec_T (s ^ 2) 0 then None
      else
        Some (madd (madd identity3 (kmat v))
                   (mscale ((1 - c) / s ^ 2) (mdot (kmat v) (kmat v))))
  | _, _ => None
  end.

(** ** Views of one firing *)

(** The active thrusters of a firing that strike a face, in firing order. *)
Definition striking (self : RPOD) (fr : firing) (fc : face) : list nat :=
  filter
    (fun n =>
       let thr := thruster_data (vv self) n in
       plume_strike (cfg self) (thruster_pos_of fr thr) (plume_normal_of fr thr) fc)
    (f_thrusters fr).

(** The object that line 654 builds for thruster number [n] and face
    [fc]. *)
Definition plume_of (self : RPOD) (fr : firing) (fc : face) (n : nat)
    : simple_plume :=
  let thr := thruster_data (vv self) n in
  SimplifiedGasKinetics self
    (norm_distance (thruster_pos_of fr thr) fc)
    (theta_value (thruster_pos_of fr thr) (plume_normal_of fr thr) fc)
    (thruster_metrics (vv self) (th_type thr))
    (tv_surface_temp (cfg self)) (tv_sigma (cfg self)).

(** A cell that holds no load and no window entry. *)
Definition no_loads (c : cell) : Prop :=
  pressures c = 0 /\ max_pressures c = 0
  /\ shear_stresses c = 0 /\ max_shears c = 0
  /\ heat_flux c = 0 /\ heat_flux_load c = 0 /\ cum_heat_flux_load c = 0
  /\ pressure_queue c = [] /\ pressure_window_sum c = 0
  /\ heat_flux_queue c = [] /\ heat_flux_window_sum c = 0.

(** The scenario configuration with [pm.kinetics = None]. *)
Definition strike_only_config : config :=
  Config 1 (2/10) KNone true 300 1 0 0 0 0 0 (-1) (-1).

Definition strike_only_scenario (firings : list firing) : RPOD :=
  Study strike_only_config one_thruster [axis_face] firings steady_plume.

(** Both timeline queues hold no negative duration. *)
Definition timelines_nonneg (st : run_state) : Prop :=
  Forall (fun x => 0 <= x) (pressure_window_queue st)
  /\ Forall (fun x => 0 <= x) (heat_flux_window_queue st).

(** ** What the sliding windows hold *)



(** [pressures[i]] as it stands after the first [m] firings. *)
Definition pressure_at (self : RPOD) (m i : nat) : R :=
  match state_after self m with
  | Some st =>
      match nth_error (cells st) i with
      | Some c => pressures c
      | None => 0
      end
  | None => 0
  end.

(** The pressure on face [i] in each of the first [n] firings, oldest
    first. *)
Definition pressure_history (self : RPOD) (n i : nat) : list R :=
  map (fun m => pressure_at self (S m) i) (seq 0 n).

(** ** Moving the scene *)

(** The face with its three vertices moved by [d]; the normal is a
    direction and stays. *)
Definition translate_face (d : vec) (fc : face) : face :=
  Face (vadd (vertex0 fc) d) (vadd (vertex1 fc) d) (vadd (vertex2 fc) d)
       (unit_normal fc).

(** * MissionPlanner.py: the propellant arithmetic

    [RPOD] extends [MissionPlanner].  The methods below read and update
    [self.vv]; the model passes the vehicle in and hands the updated vehicle
    back with the returned value. *)
Module MissionPlanner.

Import String.StringSyntax.
Local Delimit Scope string_scope with string.

(** What a call gives back: the value it returns or the exception it
    raises.  [ZeroDivisionError] is what Python numbers raise on a zero
    divisor; numpy floats give [inf] or [nan] there with a warning, and the
    same constructor stands for that.  [NotFinite] is [nan] or [-inf] out of
    [np.log]. *)
Inductive outcome (A : Type) : Type :=
| Returns (a : A)
| KeyError
| TypeError
| ZeroDivisionError
| UnboundLocalError
| NotFinite.

Arguments Returns {A} a.
Arguments KeyError {A}.
Arguments TypeError {A}.
Arguments ZeroDivisionError {A}.
Arguments UnboundLocalError {A}.
Arguments NotFinite {A}.

(** A dict with string keys. *)
Definition dict (A : Type) : Type := list (String.string * A).

Fixpoint get {A : Type} (d : dict A) (k : String.string) : option A :=
  match d with
  | [] => None
  | (k', a) :: rest => if String.eqb k k' then Some a else get rest k
  end.

(** [thruster_metrics[thruster_type]] with its entries ['F'] and ['mdot']. *)
Record thruster_metric : Type := Metric { F : R; mdot : R }.

(** The attributes of [self.vv] these methods use.  [thruster_type] maps a
    thruster name to [thruster_data[name]['type'][0]]. *)
Record vehicle : Type := Vehicle {
  mass : R;
  thrust : R;
  isp : R;
  height : R;
  radius : R;
  rcs_groups : option (dict (list String.string));
  thruster_type : dict String.string;
  thruster_metrics : dict thruster_metric
}.

(** [self.vv.mass = m]. *)
Definition set_mass (vv : vehicle) (m : R) : vehicle :=
  Vehicle m (thrust vv) (isp vv) (height vv) (radius vv) (rcs_groups vv)
    (thruster_type vv) (thruster_metrics vv).

Definition g_0 : R := 981 / 100.

(** Lines 199-225. *)
Definition calc_burn_time (vv : vehicle) (dv isp T : R) : outcome R :=
  let m_f := mass vv in
  if Req_dec_T (isp * g_0) 0 then ZeroDivisionError
  else
    let a := dv / (isp * g_0) in
    let K := isp * g_0 * m_f * (1 - exp a) in
    if Req_dec_T T 0 then ZeroDivisionError else Returns (K / T).

(** Lines 348-370: returns [dm] and adds it to [self.vv.mass]. *)
Definition calc_delta_mass (vv : vehicle) (dv isp : R)
    : outcome (R * vehicle) :=
  if Req_dec_T (isp * g_0) 0 then ZeroDivisionError
  else
    let a := dv / (isp * g_0) in
    let m_f := mass vv in
    let dm := m_f * (exp a - 1) in
    Returns (dm, set_mass vv (mass vv + dm)).

(** Lines 493-545.  The bare [return] of the first branch is [None]. *)
Definition calc_trans_performance (vv : vehicle) (motion : String.string)
    (dv : R) : outcome (option (R * R * R)) :=
  match rcs_groups vv with
  | None => Returns None
  | Some groups =>
      match get groups motion with
      | None => KeyError
      | Some names =>
          let n_thrusters := INR (length names) in
          let total_thrust := n_thrusters * thrust vv in
          if Req_dec_T (mass vv) 0 then ZeroDivisionError
          else
            let acceleration := total_thrust / mass vv in
            if Req_dec_T acceleration 0 then ZeroDivisionError
            else
              let time := Rabs dv / acceleration in
              let distance := (5 / 10) * Rabs dv * time in
              if Req_dec_T (isp vv) 0 then ZeroDivisionError
              else
                let m_dot := total_thrust / isp vv in
                let propellant_used := m_dot * time in
                Returns (Some (time, distance, propellant_used))
      end
  end.

(** Lines 718-742. *)
Definition calc_delta_v (dt v_e m_dot m_current : R) : outcome R :=
  if Req_dec_T m_current 0 then ZeroDivisionError
  else
    let x := (m_dot * dt) / m_current + 1 in
    if Rlt_dec 0 x then Returns (v_e * ln x) else NotFinite.

(** Lines 781-810. *)
Definition calc_delta_mass_v_e (vv : vehicle) (dv v_e : R)
    (forward_propagation : bool) : outcome (R * vehicle) :=
  let m_current := mass vv in
  if Req_dec_T v_e 0 then ZeroDivisionError
  else
    let dm := m_current * (exp (dv / v_e) - 1) in
    Returns (dm, set_mass vv (if forward_propagation then mass vv - dm
                              else mass vv + dm)).

(** The loop of [calc_thrust_sum] and of [calc_m_dot_sum]: [entry] picks
    ['F'] or ['mdot'], [acc] is the sum so far. *)
Fixpoint metric_sum (entry : thruster_metric -> R) (vv : vehicle)
    (names : list String.string) (acc : R) : outcome R :=
  match names with
  | [] => Returns acc
  | thruster_name :: rest =>
      match get (thruster_type vv) thruster_name with
      | None => KeyError
      | Some ty =>
          match get (thruster_metrics vv) ty with
          | None => KeyError
          | Some m => metric_sum entry vv rest (acc + entry m)
          end
      end
  end.

Definition group_sum (entry : thruster_metric -> R) (vv : vehicle)
    (group : String.string) : outcome R :=
  match rcs_groups vv with
  | None => TypeError
  | Some groups =>
      match get groups group with
      | None => KeyError
      | Some names => metric_sum entry vv names 0
      end
  end.

(** Lines 812-830. *)
Definition calc_thrust_sum (vv : vehicle) (group : String.string) : outcome R :=
  group_sum F vv group.

(** Lines 832-850. *)
Definition calc_m_dot_sum (vv : vehicle) (group : String.string) : outcome R :=
  group_sum mdot vv group.

(** Lines 852-870. *)
Definition calc_v_e (vv : vehicle) (group : String.string) : outcome R :=
  match calc_thrust_sum vv group with
  | Returns thrust_sum =>
      match calc_m_dot_sum vv group with
      | Returns m_dot_sum =>
          if Req_dec_T m_dot_sum 0 then ZeroDivisionError
          else Returns (thrust_sum / m_dot_sum)
      | e => e
      end
  | e => e
  end.

Section Rotation.

(** [self.vv.I_y] as [set_inertial_props(mass, height, radius)] leaves it;
    that method belongs to the vehicle class. *)
Variable I_y : R -> R -> R -> R.

(** Lines 744-779.  [dm] is bound only in the pitch and yaw branch of a
    forward propagation; every other path reaches [return dm] without
    it. *)
Definition calc_delta_mass_rotation (vv : vehicle) (dw : R)
    (group : String.string) (forward_propagation : bool)
    : outcome (R * vehicle) :=
  if forward_propagation then
    if String.eqb group "pos_pitch"%string
       || String.eqb group "pos_yaw"%string then
      match calc_thrust_sum vv group with
      | Returns thrust_sum =>
          if Req_dec_T (radius vv * (thrust_sum / 2)) 0 then ZeroDivisionError
          else
            let t_firing :=
              (I_y (mass vv) (height vv) (radius vv) * dw)
              / (radius vv * (thrust_sum / 2)) in
            match calc_m_dot_sum vv group with
            | Returns m_dot_sum =>
                let dm := (m_dot_sum / 2) * t_firing in
                Returns (dm, set_mass vv (mass vv - dm))
            | KeyError => KeyError
            | TypeError => TypeError
            | ZeroDivisionError => ZeroDivisionError
            | UnboundLocalError => UnboundLocalError
            | NotFinite => NotFinite
            end
      | KeyError => KeyError
      | TypeError => TypeError
      | ZeroDivisionError => ZeroDivisionError
      | UnboundLocalError => UnboundLocalError
      | NotFinite => NotFinite
      end
    else UnboundLocalError
  else UnboundLocalError.

End Rotation.

(** A vehicle of 14000 kg whose group [neg_x] holds two thrusters of one
    type. *)
Definition example_vehicle : vehicle :=
  Vehicle 14000 100 300 5 2
    (Some [("neg_x"%string, ["T1"%string; "T2"%string]);
           ("pos_pitch"%string, ["T1"%string])])
    [("T1"%string, "A"%string); ("T2"%string, "A"%string)]
    [("A"%string, Metric 100 (5 / 100))].

End MissionPlanner.

(** * Properties *)

(** ** Queues and their sums *)

Lemma sum_queue_app (q : list R) (x : R) :
  sum_queue (q ++ [x]) = sum_queue q + x.
Proof.
  induction q as [|y q IH]; simpl.
  - lra.
  - rewrite IH. lra.
Qed.

Lemma sum_queue_firstn_skipn (n : nat) (q : list R) :
  sum_queue q = sum_queue (firstn n q) + sum_queue (skipn n q).
Proof.
  revert q. induction n as [|n IH]; intros [|x q]; simpl; try lra.
  rewrite (IH q). lra.
Qed.

(** The eviction loop on a queue whose sum is tracked exactly: it never
    blocks, it stops at the first suffix whose sum fits the window, and it
    counts the entries it removed. *)
Lemma evict_window_spec (window_size : R) (q : list R) :
  0 <= window_size ->
  forall (cur : R) (k0 : nat),
    cur = sum_queue q ->
    exists n : nat,
      evict_window q cur window_size k0
        = Some (skipn n q, sum_queue (skipn n q), (k0 + n)%nat)
      /\ (n <= length q)%nat
      /\ sum_queue (skipn n q) <= window_size
      /\ (forall j, (j < n)%nat -> sum_queue (skipn j q) > window_size).
Proof.
  intros Hw. induction q as [|x q IH]; intros cur k0 Hcur; simpl in *.
  - exists 0%nat. destruct (Rgt_dec cur window_size) as [Hgt|Hle].
    + exfalso. lra.
    + subst cur. rewrite Nat.add_0_r. simpl.
      repeat split; try lra; try lia; intros j Hj; lia.
  - destruct (Rgt_dec cur window_size) as [Hgt|Hle].
    + destruct (IH (cur - x) (S k0)) as (n & Heq & Hlen & Hfit & Hmin).
      { lra. }
      exists (S n). simpl. rewrite Heq.
      replace (S k0 + n)%nat with (k0 + S n)%nat by lia.
      repeat split; try lia; try assumption.
      intros [|j] Hj; simpl.
      * lra.
      * apply Hmin. lia.
    + exists 0%nat. simpl. rewrite Nat.add_0_r. subst cur.
      repeat split; try lia; try lra; intros j Hj; lia.
Qed.

(** [update_parameter_queue] removes exactly the [k] oldest entries when the
    queue holds at least [k], and keeps the sum exact. *)
Lemma update_parameter_queue_spec (k : nat) :
  forall (q : list R) (s : R),
    (k <= length q)%nat ->
    update_parameter_queue q s k
      = Some (skipn k q, s - sum_queue (firstn k q)).
Proof.
  induction k as [|k IH]; intros q s Hk; simpl.
  - f_equal. f_equal. lra.
  - destruct q as [|x q]; simpl in *; [lia|].
    rewrite IH by lia. f_equal. f_equal. lra.
Qed.

Lemma update_parameter_queue_blocks (k : nat) :
  forall (q : list R) (s : R),
    (length q < k)%nat -> update_parameter_queue q s k = None.
Proof.
  induction k as [|k IH]; intros q s Hk; simpl; [lia|].
  destruct q as [|x q]; simpl in *; [reflexivity|].
  apply IH. lia.
Qed.

(** ** C2 *)

(** C2. On a queue whose entries add up to [cur_window], with a
    non-negative [window_size], [update_window_queue] returns (it never waits
    on an empty queue).  With [q1] the queue after the push, it returns the
    queue [skipn k q1], the sum of that queue, which is at most
    [window_size], and the number [k] of entries removed; every shorter
    removal would have left a sum above [window_size], so [k] is the count of
    the pops the loop made, oldest entries first.  The returned sum is the old
    sum plus [firing_time] minus the removed entries.  (The sign of
    [firing_time] plays no part.) *)
Theorem update_window_queue_correct
    (window_queue : list R) (cur_window firing_time window_size : R) :
  cur_window = sum_queue window_queue ->
  0 <= firing_time ->
  0 <= window_size ->
  let q1 := window_queue ++ [firing_time] in
  exists (k : nat),
    update_window_queue window_queue cur_window firing_time window_size
      = Some (skipn k q1, sum_queue (skipn k q1), k)
    /\ (k <= length q1)%nat
    /\ sum_queue (skipn k q1) <= window_size
    /\ sum_queue (skipn k q1)
       = cur_window + firing_time - sum_queue (firstn k q1)
    /\ (forall j, (j < k)%nat -> sum_queue (skipn j q1) > window_size).
Proof.
  intros Hsum _ Hw q1. unfold update_window_queue. fold q1.
  destruct (evict_window_spec window_size q1 Hw (cur_window + firing_time) 0%nat)
    as (n & Heq & Hlen & Hfit & Hmin).
  { unfold q1. rewrite sum_queue_app. lra. }
  exists n. simpl in Heq. repeat split; try assumption.
  assert (Hq1 : sum_queue q1 = cur_window + firing_time).
  { unfold q1. rewrite sum_queue_app. lra. }
  pose proof (sum_queue_firstn_skipn n q1) as Hsplit. lra.
Qed.

Lemma update_window_queue_correct_witness :
  exists k : nat,
    update_window_queue [10] 10 10 15
      = Some (skipn k [10; 10], sum_queue (skipn k [10; 10]), k)
    /\ sum_queue (skipn k [10; 10]) <= 15.
Proof.
  destruct (update_window_queue_correct [10] 10 10 15) as (k & H1 & _ & H2 & _).
  - simpl. lra.
  - lra.
  - lra.
  - exists k. split; assumption.
Defined.

(** ** Comparisons and norms *)

Lemma Rltb_true_iff (x y : R) : Rltb x y = true <-> x < y.
Proof.
  unfold Rltb. destruct (Rlt_dec x y); split; intros H; try reflexivity;
    try discriminate; try assumption; contradiction.
Qed.

Lemma Rgtb_true_iff (x y : R) : Rgtb x y = true <-> x > y.
Proof.
  unfold Rgtb. destruct (Rgt_dec x y); split; intros H; try reflexivity;
    try discriminate; try assumption; contradiction.
Qed.

Lemma np_lt_true_iff (x : option R) (y : R) :
  np_lt x y = true <-> exists v, x = Some v /\ v < y.
Proof.
  unfold np_lt. destruct x as [v|].
  - destruct (Rlt_dec v y) as [Hlt|Hge]; split.
    + intros _. exists v. split; [reflexivity | assumption].
    + reflexivity.
    + discriminate.
    + intros (w & Hw & Hlt). injection Hw as <-. contradiction.
  - split; [discriminate|]. intros (w & Hw & _). discriminate.
Qed.

Lemma norm_zero_iff (v : vec) : norm v = 0 <-> v = Vec 0 0 0.
Proof.
  destruct v as [x y z]. unfold norm. simpl vx; simpl vy; simpl vz. split.
  - intros H. apply sqrt_eq_0 in H; [|nra].
    assert (x = 0) by nra. assert (y = 0) by nra. assert (z = 0) by nra.
    subst. reflexivity.
  - intros H. injection H as -> -> ->.
    replace (0 ^ 2 + 0 ^ 2 + 0 ^ 2) with 0 by ring. apply sqrt_0.
Qed.

Lemma norm_axis (a : R) : 0 <= a -> norm (Vec (- a) 0 0) = a.
Proof.
  intros Ha. unfold norm. simpl vx; simpl vy; simpl vz.
  replace ((- a) ^ 2 + 0 ^ 2 + 0 ^ 2) with (a * a) by ring.
  apply sqrt_square. assumption.
Qed.

(** The literal 3.14 is below [PI]. *)
Lemma theta_offset_lt_PI : theta_offset < PI.
Proof.
  unfold theta_offset.
  pose proof (PI_2_3_7_ineq 1) as [Hlo _].
  unfold sum_f_R0, tg_alt, PI_2_3_7_tg, Ratan_seq in Hlo.
  simpl in Hlo. lra.
Qed.

Lemma acos_minus_one : acos (-1) = PI.
Proof.
  unfold acos. destruct (Rle_dec (-1) (-1)) as [_|H]; [reflexivity|].
  exfalso. apply H. lra.
Qed.

(** ** The strike test *)

Lemma strike_face_hit (self : RPOD) (t : R) (thr : thruster) (tp pn : vec)
    (fc : face) (c : cell) :
  plume_strike (cfg self) tp pn fc = true ->
  strikes (strike_face self t thr tp pn fc c) = 1%nat
  /\ cum_strikes (strike_face self t thr tp pn fc c) = (cum_strikes c + 1)%nat.
Proof.
  intros H. unfold strike_face. rewrite H.
  destruct (pm_kinetics (cfg self)); split; reflexivity.
Qed.

Lemma strike_face_miss (self : RPOD) (t : R) (thr : thruster) (tp pn : vec)
    (fc : face) (c : cell) :
  plume_strike (cfg self) tp pn fc = false ->
  strike_face self t thr tp pn fc c = c.
Proof. intros H. unfold strike_face. rewrite H. reflexivity. Qed.

Lemma plume_strike_true_iff (c : config) (thruster_pos plume_normal : vec)
    (fc : face) :
  plume_strike c thruster_pos plume_normal fc = true <->
    norm_distance thruster_pos fc < plume_radius c
    /\ (exists t, theta thruster_pos plume_normal fc = Some t
                  /\ t < plume_wedge_theta c)
    /\ (exists s, np_dot (Some (unit_normal fc)) (unit_plume_normal plume_normal)
                    = Some s /\ s < 0).
Proof.
  unfold plume_strike. split.
  - intros H.
    apply andb_prop in H as [H12 H3]. apply andb_prop in H12 as [H1 H2].
    split; [|split].
    + apply Rltb_true_iff. exact H1.
    + apply np_lt_true_iff. exact H2.
    + apply np_lt_true_iff. exact H3.
  - intros (H1 & H2 & H3).
    apply Rltb_true_iff in H1. apply np_lt_true_iff in H2.
    apply np_lt_true_iff in H3.
    unfold within_distance, within_theta, facing_thruster, surface_dot_plume.
    rewrite H1, H2, H3. reflexivity.
Qed.

(** What the code does test.  A face is recorded as struck by a thruster
    exactly when three strict tests hold: the norm of the distance vector is
    below the plume radius, the code's own angle [theta], which is
    3.14 - arccos, is a number below the wedge half-angle, and the dot
    product of the face's unit normal with the unit plume axis is a number
    below zero.  Recording means [strikes] becomes 1 and [cum_strikes] grows
    by one; otherwise the cell is left as it was.  A face at exactly the
    radius, or with [theta] at exactly the wedge half-angle, is not
    struck. *)
Theorem strike_iff_three_strict_tests (self : RPOD) (firing_time : R)
    (thr : thruster) (thruster_pos plume_normal : vec) (fc : face) (c : cell) :
  let hit := plume_strike (cfg self) thruster_pos plume_normal fc in
  let c' := strike_face self firing_time thr thruster_pos plume_normal fc c in
  (hit = true <->
     norm_distance thruster_pos fc < plume_radius (cfg self)
     /\ (exists t, theta thruster_pos plume_normal fc = Some t
                   /\ t < plume_wedge_theta (cfg self))
     /\ (exists s, np_dot (Some (unit_normal fc)) (unit_plume_normal plume_normal)
                     = Some s /\ s < 0))
  /\ (hit = true -> strikes c' = 1%nat /\ cum_strikes c' = (cum_strikes c + 1)%nat)
  /\ (hit = false -> c' = c)
  /\ (norm_distance thruster_pos fc = plume_radius (cfg self) -> hit = false)
  /\ (theta thruster_pos plume_normal fc = Some (plume_wedge_theta (cfg self))
      -> hit = false).
Proof.
  intros hit c'. subst hit c'.
  split; [|split; [|split; [|split]]].
  - apply plume_strike_true_iff.
  - apply strike_face_hit.
  - apply strike_face_miss.
  - intros H. unfold plume_strike, within_distance. rewrite H.
    unfold Rltb. destruct (Rlt_dec _ _) as [Hlt|_]; [|reflexivity].
    exfalso. lra.
  - intros H. unfold plume_strike, within_theta. rewrite H. unfold np_lt.
    destruct (Rlt_dec _ _) as [Hlt|_].
    + exfalso. lra.
    + rewrite andb_false_r. reflexivity.
Qed.

(** ** The geometry of the worked scenarios *)

Lemma axis_thruster_pos (xyz : vec) (t : R) (active : list nat) :
  thruster_pos_of (firing_at xyz t active) axis_thruster = xyz.
Proof.
  destruct xyz as [x y z]. unfold thruster_pos_of, vadd. simpl.
  f_equal; lra.
Qed.

Lemma axis_plume_normal (xyz : vec) (t : R) (active : list nat) :
  plume_normal_of (firing_at xyz t active) axis_thruster = Vec 1 0 0.
Proof.
  unfold plume_normal_of, mdot, transpose, dot. simpl.
  f_equal; lra.
Qed.

Lemma axis_centroid : centroid axis_face = Vec (1/2) 0 0.
Proof.
  unfold centroid, mean3. simpl. f_equal; lra.
Qed.

Lemma unit_plume_normal_x : unit_plume_normal (Vec 1 0 0) = Some (Vec 1 0 0).
Proof.
  unfold unit_plume_normal.
  assert (Hn : norm (Vec 1 0 0) = 1).
  { unfold norm. simpl vx; simpl vy; simpl vz.
    replace (1 ^ 2 + 0 ^ 2 + 0 ^ 2) with 1 by ring. apply sqrt_1. }
  rewrite Hn. unfold np_divide.
  destruct (Req_dec_T 1 0) as [H|_]; [exfalso; lra|].
  simpl. f_equal. f_equal; lra.
Qed.

Lemma axis_distance : distance origin axis_face = Vec (- (1/2)) 0 0.
Proof.
  unfold distance. rewrite axis_centroid. unfold origin, vsub. simpl.
  f_equal; lra.
Qed.

Lemma axis_norm_distance : norm_distance origin axis_face = 1/2.
Proof.
  unfold norm_distance. rewrite axis_distance. apply norm_axis. lra.
Qed.

Lemma axis_unit_distance :
  unit_distance origin axis_face = Some (Vec (-1) 0 0).
Proof.
  unfold unit_distance. rewrite axis_norm_distance, axis_distance.
  unfold np_divide. destruct (Req_dec_T (1/2) 0) as [H|_]; [exfalso; lra|].
  simpl. f_equal. f_equal; lra.
Qed.

Lemma axis_theta :
  theta origin (Vec 1 0 0) axis_face = Some (theta_offset - PI).
Proof.
  unfold theta. rewrite axis_unit_distance, unit_plume_normal_x.
  unfold np_dot, dot. simpl vx; simpl vy; simpl vz.
  replace (-1 * 1 + 0 * 0 + 0 * 0) with (-1) by ring.
  unfold np_arccos.
  destruct (Rle_dec (-1) (-1)) as [_|H]; [|exfalso; lra].
  destruct (Rle_dec (-1) 1) as [_|H]; [|exfalso; lra].
  rewrite acos_minus_one. reflexivity.
Qed.

Lemma axis_strike (limit : R) :
  plume_strike (scenario_config limit) origin (Vec 1 0 0) axis_face = true.
Proof.
  apply plume_strike_true_iff. simpl. split; [|split].
  - rewrite axis_norm_distance. lra.
  - exists (theta_offset - PI). split; [apply axis_theta|].
    pose proof theta_offset_lt_PI. lra.
  - rewrite unit_plume_normal_x. exists (-1). split.
    + unfold np_dot, dot. simpl. f_equal. lra.
    + lra.
Qed.

Lemma strike_iff_three_strict_tests_witness :
  plume_strike (scenario_config 100) origin (Vec 1 0 0) axis_face = true
  /\ strikes (strike_face (scenario 100 []) 10 axis_thruster origin (Vec 1 0 0)
                axis_face new_cell) = 1%nat
  /\ plume_strike (scenario_config 100) (Vec (1/2) 0 0) (Vec 1 0 0) axis_face
     = false.
Proof.
  pose proof (strike_iff_three_strict_tests (scenario 100 []) 10 axis_thruster
                origin (Vec 1 0 0) axis_face new_cell) as (_ & Hrec & _).
  pose proof (strike_iff_three_strict_tests (scenario 100 []) 10 axis_thruster
                (Vec (1/2) 0 0) (Vec 1 0 0) axis_face new_cell) as (Hiff & _).
  split; [apply axis_strike|]. split; [apply Hrec; apply axis_strike|].
  simpl in Hiff.
  destruct (plume_strike (scenario_config 100) (Vec (1/2) 0 0) (Vec 1 0 0) axis_face);
    [|reflexivity].
  exfalso. destruct Hiff as [Hfwd _].
  destruct (Hfwd eq_refl) as (_ & (t & Ht & _) & _).
  unfold theta, unit_distance, norm_distance, distance in Ht.
  rewrite axis_centroid in Ht. unfold vsub in Ht. simpl in Ht.
  replace (1 / 2 - 1 / 2) with 0 in Ht by lra.
  replace (0 - 0) with 0 in Ht by lra.
  rewrite (proj2 (norm_zero_iff (Vec 0 0 0)) eq_refl) in Ht.
  unfold np_divide in Ht.
  destruct (Req_dec_T 0 0) as [_|H]; [discriminate|]. apply H. reflexivity.
Defined.

(** ** C3: the wedge test against the angle from the centre line *)

Lemma off_axis_centroid (phi : R) :
  centroid (off_axis_face phi) = Vec (cos phi / 2) (sin phi / 2) 0.
Proof.
  unfold centroid, off_axis_face, mean3. cbn [vertex0 vertex1 vertex2 vx vy vz].
  f_equal; field.
Qed.

Lemma off_axis_norm_distance (phi : R) :
  norm_distance origin (off_axis_face phi) = 1 / 2.
Proof.
  unfold norm_distance, distance. rewrite off_axis_centroid.
  unfold origin, vsub, norm. cbn [vx vy vz].
  pose proof (sin2_cos2 phi) as Hsc. unfold Rsqr in Hsc.
  replace ((0 - cos phi / 2) ^ 2 + (0 - sin phi / 2) ^ 2 + (0 - 0) ^ 2)
    with ((sin phi * sin phi + cos phi * cos phi) * (1 / 2 * (1 / 2)))
    by field.
  rewrite Hsc, Rmult_1_l. apply sqrt_square. lra.
Qed.

Lemma off_axis_unit_distance (phi : R) :
  unit_distance origin (off_axis_face phi)
    = Some (Vec (- cos phi) (- sin phi) 0).
Proof.
  unfold unit_distance. rewrite off_axis_norm_distance.
  unfold distance. rewrite off_axis_centroid.
  unfold np_divide. destruct (Req_dec_T (1 / 2) 0) as [H|_]; [exfalso; lra|].
  unfold origin, vsub. cbn [vx vy vz]. f_equal. f_equal; field.
Qed.

Lemma off_axis_dot (phi : R) :
  np_dot (unit_distance origin (off_axis_face phi))
         (unit_plume_normal (Vec 1 0 0)) = Some (- cos phi).
Proof.
  rewrite off_axis_unit_distance, unit_plume_normal_x.
  unfold np_dot, dot. cbn [vx vy vz]. f_equal. ring.
Qed.

Lemma off_axis_arccos (phi : R) :
  0 <= phi <= PI ->
  np_arccos (np_dot (unit_distance origin (off_axis_face phi))
                    (unit_plume_normal (Vec 1 0 0))) = Some (PI - phi).
Proof.
  intros Hphi. rewrite off_axis_dot. unfold np_arccos.
  pose proof (COS_bound phi) as [Hlo Hhi].
  destruct (Rle_dec (-1) (- cos phi)) as [_|H]; [|exfalso; lra].
  destruct (Rle_dec (- cos phi) 1) as [_|H]; [|exfalso; lra].
  rewrite acos_opp, acos_cos by exact Hphi. reflexivity.
Qed.

(** A face at the angle [phi] from the centre line is struck as soon as
    [phi] is below the wedge half-angle plus pi - 3.14. *)
Lemma off_axis_strike (phi : R) :
  0 <= phi <= PI ->
  phi < 2 / 10 + (PI - theta_offset) ->
  specified_theta origin (Vec 1 0 0) (off_axis_face phi) = Some phi
  /\ theta origin (Vec 1 0 0) (off_axis_face phi)
     = Some (phi - (PI - theta_offset))
  /\ plume_strike (scenario_config 100) origin (Vec 1 0 0) (off_axis_face phi)
     = true.
Proof.
  intros Hphi Hlt.
  assert (Hs : specified_theta origin (Vec 1 0 0) (off_axis_face phi)
               = Some phi).
  { unfold specified_theta. rewrite (off_axis_arccos phi Hphi).
    unfold np_rsub. f_equal. ring. }
  assert (Ht : theta origin (Vec 1 0 0) (off_axis_face phi)
               = Some (phi - (PI - theta_offset))).
  { unfold theta. rewrite (off_axis_arccos phi Hphi).
    unfold np_rsub. f_equal. ring. }
  split; [exact Hs|]. split; [exact Ht|].
  apply plume_strike_true_iff. split; [|split].
  - rewrite off_axis_norm_distance. simpl. lra.
  - exists (phi - (PI - theta_offset)). split; [exact Ht|]. simpl. lra.
  - rewrite unit_plume_normal_x. exists (-1). split.
    + unfold np_dot, dot. simpl. f_equal. lra.
    + lra.
Qed.

Lemma PI_above_31415 : 31415 / 10000 < PI.
Proof.
  pose proof (PI_2_3_7_ineq 1) as [Hlo _].
  unfold sum_f_R0, tg_alt, PI_2_3_7_tg, Ratan_seq in Hlo.
  simpl in Hlo. lra.
Qed.

(** C3 at the edge of the wedge and beyond it.  One thruster at the origin
    fires along +X with plume radius 1 and wedge half-angle 0.2.  A face
    half a unit away that is turned towards the thruster and whose centroid
    is at exactly 0.2 rad from the plume centre line passes the source's
    wedge test and is recorded as struck, and so is a face at 0.201 rad,
    outside the wedge: the source compares 3.14 - arccos, which is below the
    angle from the centre line by pi - 3.14. *)
Theorem strike_outside_the_wedge :
  let fr := firing_at origin 10 [1%nat] in
  let thruster_pos := thruster_pos_of fr axis_thruster in
  let plume_normal := plume_normal_of fr axis_thruster in
  let c := scenario_config 100 in
  let struck fc :=
    strikes (strike_face (scenario 100 []) (f_t fr) axis_thruster thruster_pos
               plume_normal fc new_cell) in
  specified_theta thruster_pos plume_normal (off_axis_face (2 / 10))
    = Some (plume_wedge_theta c)
  /\ plume_strike c thruster_pos plume_normal (off_axis_face (2 / 10)) = true
  /\ struck (off_axis_face (2 / 10)) = 1%nat
  /\ specified_theta thruster_pos plume_normal (off_axis_face (201 / 1000))
     = Some (201 / 1000)
  /\ plume_wedge_theta c < 201 / 1000
  /\ plume_strike c thruster_pos plume_normal (off_axis_face (201 / 1000))
     = true
  /\ struck (off_axis_face (201 / 1000)) = 1%nat.
Proof.
  cbv zeta. rewrite axis_thruster_pos, axis_plume_normal.
  pose proof PI_above_31415 as Hpi. pose proof PI_4 as Hpi4.
  assert (H1 : 0 <= 2 / 10 <= PI) by lra.
  assert (H2 : 0 <= 201 / 1000 <= PI) by lra.
  destruct (off_axis_strike (2 / 10) H1) as (Hs1 & _ & Hp1);
    [unfold theta_offset; lra|].
  destruct (off_axis_strike (201 / 1000) H2) as (Hs2 & _ & Hp2);
    [unfold theta_offset; lra|].
  split; [exact Hs1|]. split; [exact Hp1|].
  split; [apply strike_face_hit; exact Hp1|].
  split; [exact Hs2|]. split; [simpl; lra|]. split; [exact Hp2|].
  apply strike_face_hit. exact Hp2.
Qed.

(** ** C4: a zero distance vector *)

Lemma zero_norm_distance_is_nan (thruster_pos : vec) (fc : face) :
  norm_distance thruster_pos fc = 0 -> unit_distance thruster_pos fc = None.
Proof.
  intros H. unfold unit_distance, np_divide. rewrite H.
  destruct (Req_dec_T 0 0) as [_|Hne]; [reflexivity|].
  exfalso. apply Hne. reflexivity.
Qed.

Lemma centre_norm_distance : norm_distance (Vec (1/2) 0 0) axis_face = 0.
Proof.
  unfold norm_distance. apply norm_zero_iff.
  unfold distance. rewrite axis_centroid. unfold vsub. simpl. f_equal; lra.
Qed.

(** C4, as stated, fails: with the thruster exit on the centroid of the face
    the magnitude [norm_distance] is 0 and line 612 still evaluates
    [distance / norm_distance]; the quotient is [nan].  Nothing in the strike
    computation tests the magnitude before dividing. *)
Lemma zero_distance_divides_by_zero :
  let thruster_pos :=
    thruster_pos_of (firing_at (Vec (1/2) 0 0) 10 [1%nat]) axis_thruster in
  norm_distance thruster_pos axis_face = 0
  /\ unit_distance thruster_pos axis_face
     = np_divide (distance thruster_pos axis_face) 0
  /\ unit_distance thruster_pos axis_face = None.
Proof.
  cbv zeta. rewrite axis_thruster_pos.
  split; [apply centre_norm_distance|]. split.
  - unfold unit_distance. rewrite centre_norm_distance. reflexivity.
  - apply zero_norm_distance_is_nan. apply centre_norm_distance.
Qed.

(** C4, amended.  For a face/thruster pair whose distance vector has zero
    magnitude, the distance vector is divided by that zero magnitude without
    a guard and without an exception: the unit distance is [nan], so is the
    angle [theta], the test [theta < wedge_theta] is false, the pair is not a
    strike and the cell of the face is left unchanged. *)
Theorem zero_distance_is_nan_and_no_strike (self : RPOD) (firing_time : R)
    (thr : thruster) (thruster_pos plume_normal : vec) (fc : face) (c : cell) :
  norm_distance thruster_pos fc = 0 ->
  distance thruster_pos fc = Vec 0 0 0
  /\ unit_distance thruster_pos fc = None
  /\ theta thruster_pos plume_normal fc = None
  /\ within_theta (cfg self) thruster_pos plume_normal fc = false
  /\ plume_strike (cfg self) thruster_pos plume_normal fc = false
  /\ strike_face self firing_time thr thruster_pos plume_normal fc c = c.
Proof.
  intros H.
  assert (Hu : unit_distance thruster_pos fc = None)
    by (apply zero_norm_distance_is_nan; exact H).
  assert (Ht : theta thruster_pos plume_normal fc = None).
  { unfold theta. rewrite Hu. reflexivity. }
  assert (Hw : within_theta (cfg self) thruster_pos plume_normal fc = false).
  { unfold within_theta. rewrite Ht. reflexivity. }
  assert (Hs : plume_strike (cfg self) thruster_pos plume_normal fc = false).
  { unfold plume_strike. rewrite Hw. rewrite andb_false_r. reflexivity. }
  repeat split; try assumption.
  - apply norm_zero_iff. exact H.
  - apply strike_face_miss. exact Hs.
Qed.

Lemma zero_distance_is_nan_and_no_strike_witness :
  norm_distance (Vec (1/2) 0 0) axis_face = 0
  /\ plume_strike (scenario_config 100) (Vec (1/2) 0 0) (Vec 1 0 0) axis_face
     = false.
Proof.
  split; [apply centre_norm_distance|].
  apply (zero_distance_is_nan_and_no_strike (scenario 100 []) 10 axis_thruster
           (Vec (1/2) 0 0) (Vec 1 0 0) axis_face new_cell).
  apply centre_norm_distance.
Defined.

(** ** C5: the angle from the plume centre line *)

(** C5 at a face on the plume axis.  The unit distance is opposite to the
    unit plume axis, their dot product is -1 and its arccosine is [PI], so
    [PI - arccos] is 0 there; the source computes [3.14 - arccos], which is
    [3.14 - PI], a negative number. *)
Theorem theta_on_plume_axis :
  let fr := firing_at origin 10 [1%nat] in
  let thruster_pos := thruster_pos_of fr axis_thruster in
  let plume_normal := plume_normal_of fr axis_thruster in
  np_dot (unit_distance thruster_pos axis_face) (unit_plume_normal plume_normal)
    = Some (-1)
  /\ PI - acos (-1) = 0
  /\ theta thruster_pos plume_normal axis_face = Some (314 / 100 - PI)
  /\ 314 / 100 - PI < 0.
Proof.
  cbv zeta. rewrite axis_thruster_pos, axis_plume_normal.
  split; [|split; [|split]].
  - rewrite axis_unit_distance, unit_plume_normal_x.
    unfold np_dot, dot. simpl. f_equal. lra.
  - rewrite acos_minus_one. lra.
  - apply axis_theta.
  - pose proof theta_offset_lt_PI as H. unfold theta_offset in H. lra.
Qed.

(** ** One face through the strike phase *)

Lemma strike_faces_nth (step : face -> cell -> cell) (faces : list face) :
  forall (cs : list cell) (i : nat) (fc : face) (c : cell),
    nth_error faces i = Some fc ->
    nth_error cs i = Some c ->
    nth_error (strike_faces step faces cs) i = Some (step fc c).
Proof.
  induction faces as [|f faces IH]; intros cs i fc c Hf Hc.
  - destruct i; discriminate.
  - destruct cs as [|x cs]; [destruct i; discriminate|].
    destruct i as [|i]; simpl in *.
    + injection Hf as <-. injection Hc as <-. reflexivity.
    + apply IH; assumption.
Qed.

Lemma fire_thrusters_nth (self : RPOD) (fr : firing) (active : list nat) :
  forall (cs : list cell) (i : nat) (fc : face) (c : cell),
    nth_error (target self) i = Some fc ->
    nth_error cs i = Some c ->
    nth_error (fold_left (fire_thruster self fr) active cs) i
      = Some (fold_left
                (fun x n =>
                   let thr := thruster_data (vv self) n in
                   strike_face self (f_t fr) thr (thruster_pos_of fr thr)
                     (plume_normal_of fr thr) fc x)
                active c).
Proof.
  induction active as [|n active IH]; intros cs i fc c Hf Hc; simpl.
  - exact Hc.
  - apply IH; [exact Hf|]. unfold fire_thruster.
    apply strike_faces_nth; assumption.
Qed.

Lemma strike_phase_nth (self : RPOD) (fr : firing) (cs : list cell)
    (i : nat) (fc : face) (c : cell) :
  nth_error (target self) i = Some fc ->
  nth_error cs i = Some c ->
  nth_error (strike_phase self fr cs) i = Some (struck_cell self fr fc c).
Proof.
  intros Hf Hc. unfold strike_phase, struck_cell.
  apply fire_thrusters_nth; [exact Hf|].
  rewrite nth_error_map, Hc. reflexivity.
Qed.

Lemma strike_face_same_windows (self : RPOD) (t : R) (thr : thruster)
    (tp pn : vec) (fc : face) (c : cell) :
  same_windows c (strike_face self t thr tp pn fc c).
Proof.
  unfold strike_face, same_windows.
  destruct (plume_strike (cfg self) tp pn fc); [|repeat split].
  destruct (pm_kinetics (cfg self)); repeat split.
Qed.

Lemma struck_cell_same_windows (self : RPOD) (fr : firing) (fc : face) (c : cell) :
  same_windows c (struck_cell self fr fc c).
Proof.
  unfold struck_cell.
  assert (H0 : same_windows c (reset_cell c)) by (repeat split).
  revert H0. generalize (reset_cell c) as x.
  induction (f_thrusters fr) as [|n active IH]; intros x Hx; simpl.
  - exact Hx.
  - apply IH.
    pose proof (strike_face_same_windows self (f_t fr) (thruster_data (vv self) n)
                  (thruster_pos_of fr (thruster_data (vv self) n))
                  (plume_normal_of fr (thruster_data (vv self) n)) fc x) as Hs.
    unfold same_windows in *. simpl in Hs.
    destruct Hx as (H1 & H2 & H3 & H4). destruct Hs as (G1 & G2 & G3 & G4).
    repeat split; congruence.
Qed.

(** Strikes of one face in one firing: the flag is a logical or, the counter
    counts thrusters. *)
Lemma struck_cell_strikes (self : RPOD) (fr : firing) (fc : face) (c : cell) :
  strikes (struck_cell self fr fc c)
    = (if Nat.eqb (striking_thrusters self fr fc) 0 then 0 else 1)%nat
  /\ cum_strikes (struck_cell self fr fc c)
    = (cum_strikes c + striking_thrusters self fr fc)%nat.
Proof.
  unfold struck_cell, striking_thrusters.
  set (hit := fun n : nat =>
         let thr := thruster_data (vv self) n in
         plume_strike (cfg self) (thruster_pos_of fr thr) (plume_normal_of fr thr) fc).
  set (step := fun (x : cell) (n : nat) =>
         let thr := thruster_data (vv self) n in
         strike_face self (f_t fr) thr (thruster_pos_of fr thr)
           (plume_normal_of fr thr) fc x).
  assert (Hgen : forall (active : list nat) (x : cell) (k : nat),
            strikes x = (if Nat.eqb k 0 then 0 else 1)%nat ->
            strikes (fold_left step active x)
              = (if Nat.eqb (k + length (filter hit active)) 0 then 0 else 1)%nat
            /\ cum_strikes (fold_left step active x)
              = (cum_strikes x + length (filter hit active))%nat).
  { induction active as [|n active IH]; intros x k Hk.
    - simpl. rewrite !Nat.add_0_r. split; [exact Hk | reflexivity].
    - change (fold_left step (n :: active) x)
        with (fold_left step active (step x n)).
      change (filter hit (n :: active))
        with (if hit n then n :: filter hit active else filter hit active).
      destruct (hit n) eqn:Hn.
      + assert (Hhit : strikes (step x n) = 1%nat
                       /\ cum_strikes (step x n) = (cum_strikes x + 1)%nat).
        { unfold step. apply strike_face_hit. exact Hn. }
        destruct Hhit as [Hs Hc].
        destruct (IH (step x n) (S k) Hs) as [IH1 IH2].
        split.
        * rewrite IH1. simpl length.
          replace (S k + length (filter hit active))%nat
            with (k + S (length (filter hit active)))%nat by lia.
          reflexivity.
        * rewrite IH2, Hc. simpl length. lia.
      + assert (Hmiss : step x n = x).
        { unfold step. apply strike_face_miss. exact Hn. }
        rewrite Hmiss. apply IH. exact Hk. }
  destruct (Hgen (f_thrusters fr) (reset_cell c) 0%nat eq_refl) as [G1 G2].
  simpl in G1. rewrite G1, G2. split; reflexivity.
Qed.

(** ** The window update of one firing *)

Lemma evict_window_sound (window_size : R) (q : list R) :
  forall (cur : R) (k0 : nat) (q' : list R) (s : R) (k : nat),
    evict_window q cur window_size k0 = Some (q', s, k) ->
    cur = sum_queue q ->
    exists n : nat,
      k = (k0 + n)%nat /\ (n <= length q)%nat
      /\ q' = skipn n q /\ s = sum_queue q'.
Proof.
  induction q as [|x q IH]; intros cur k0 q' s k Hev Hcur; simpl in Hev.
  - destruct (Rgt_dec cur window_size); [discriminate|].
    injection Hev as <- <- <-. exists 0%nat. simpl.
    repeat split; try lia. exact Hcur.
  - destruct (Rgt_dec cur window_size).
    + destruct (IH _ _ _ _ _ Hev) as (n & Hk & Hn & Hq & Hs).
      { simpl in Hcur. lra. }
      exists (S n). simpl. repeat split; try lia; assumption.
    + injection Hev as <- <- <-. exists 0%nat. simpl.
      repeat split; try lia. exact Hcur.
Qed.

Lemma update_window_queue_sound (q : list R) (cur t window_size : R)
    (q' : list R) (s : R) (k : nat) :
  update_window_queue q cur t window_size = Some (q', s, k) ->
  cur = sum_queue q ->
  (k <= length q + 1)%nat
  /\ length q' = (length q + 1 - k)%nat
  /\ s = sum_queue q'.
Proof.
  unfold update_window_queue. intros Hev Hcur.
  destruct (evict_window_sound _ _ _ _ _ _ _ Hev) as (n & Hk & Hn & Hq & Hs).
  { rewrite sum_queue_app. lra. }
  rewrite length_app in Hn. simpl in Hn, Hk. subst k.
  repeat split; try lia; try assumption.
  subst q'. rewrite length_skipn, length_app. simpl. lia.
Qed.

Lemma update_window_queue_total (q : list R) (cur t window_size : R) :
  cur = sum_queue q -> 0 <= window_size ->
  exists r, update_window_queue q cur t window_size = Some r.
Proof.
  intros Hcur Hw. unfold update_window_queue.
  destruct (evict_window_spec window_size (q ++ [t]) Hw (cur + t) 0%nat)
    as (n & Heq & _).
  { rewrite sum_queue_app. lra. }
  eexists. exact Heq.
Qed.

Lemma update_parameter_queue_sound (k : nat) (q : list R) (s : R)
    (q' : list R) (s' : R) :
  update_parameter_queue q s k = Some (q', s') ->
  (k <= length q)%nat /\ q' = skipn k q /\ s' = s - sum_queue (firstn k q).
Proof.
  intros H. destruct (Nat.le_gt_cases k (length q)) as [Hle|Hgt].
  - rewrite update_parameter_queue_spec in H by exact Hle.
    injection H as <- <-. repeat split. exact Hle.
  - rewrite update_parameter_queue_blocks in H by exact Hgt. discriminate.
Qed.

Lemma sums_after_pop (k : nat) (q : list R) (s : R) :
  s = sum_queue q ->
  s - sum_queue (firstn k q) = sum_queue (skipn k q).
Proof.
  intros Hs. pose proof (sum_queue_firstn_skipn k q). lra.
Qed.

Lemma evict_cell_sound (pk hk : nat) (c c' : cell) :
  evict_cell pk hk c = Some c' ->
  sums_exact c ->
  pressure_queue c <> [] ->
  sums_exact c'
  /\ same_loads c c'
  /\ (pk <= length (pressure_queue c))%nat
  /\ length (pressure_queue c') = (length (pressure_queue c) - pk)%nat
  /\ (length (heat_flux_queue c) - hk <= length (heat_flux_queue c'))%nat.
Proof.
  unfold evict_cell. intros H [Hp Hh] Hne.
  destruct (pressure_queue c) as [|p0 pq0] eqn:Epq; [contradiction|].
  simpl queue_empty in H. simpl negb in H. cbv iota in H.
  destruct (update_parameter_queue (p0 :: pq0) (pressure_window_sum c) pk)
    as [[pq' ps']|] eqn:Eup; simpl in H; [|discriminate].
  apply update_parameter_queue_sound in Eup as (Hk & Hq & Hs).
  rewrite (sums_after_pop pk (p0 :: pq0) _ Hp) in Hs. rewrite <- Hq in Hs.
  destruct (negb (queue_empty (heat_flux_queue c))
            && Rneqb (heat_flux_window_sum c) 0) eqn:Eg.
  - destruct (update_parameter_queue (heat_flux_queue c) (heat_flux_window_sum c) hk)
      as [[hq' hs']|] eqn:Euh; simpl in H; [|discriminate].
    apply update_parameter_queue_sound in Euh as (Hk2 & Hq2 & Hs2).
    rewrite (sums_after_pop hk _ _ Hh) in Hs2. rewrite <- Hq2 in Hs2.
    injection H as <-. unfold sums_exact, same_loads. simpl.
    repeat split; try assumption.
    + subst pq'. rewrite length_skipn. reflexivity.
    + subst hq'. rewrite length_skipn. lia.
  - injection H as <-. unfold sums_exact, same_loads. simpl.
    repeat split; try assumption.
    + subst pq'. rewrite length_skipn. reflexivity.
    + lia.
Qed.

Lemma evict_cell_total (pk hk : nat) (c : cell) :
  (pk <= length (pressure_queue c))%nat ->
  (hk <= length (heat_flux_queue c))%nat ->
  exists c', evict_cell pk hk c = Some c'.
Proof.
  intros Hp Hh. unfold evict_cell.
  destruct (negb (queue_empty (pressure_queue c))).
  - rewrite update_parameter_queue_spec by exact Hp. simpl.
    destruct (_ && _).
    + rewrite update_parameter_queue_spec by exact Hh. simpl. eexists. reflexivity.
    + eexists. reflexivity.
  - destruct (_ && _).
    + rewrite update_parameter_queue_spec by exact Hh. simpl. eexists. reflexivity.
    + eexists. reflexivity.
Qed.

Lemma strike_faces_Forall (P : cell -> Prop) (step : face -> cell -> cell) :
  (forall fc c, P c -> P (step fc c)) ->
  forall (faces : list face) (cs : list cell),
    Forall P cs -> Forall P (strike_faces step faces cs).
Proof.
  intros Hstep. induction faces as [|fc faces IH]; intros cs Hcs; simpl.
  - constructor.
  - destruct cs as [|c cs]; [constructor|].
    inversion Hcs; subst. constructor; [apply Hstep; assumption|].
    apply IH. assumption.
Qed.

Lemma strike_phase_Forall (P : cell -> Prop) (self : RPOD) (fr : firing) :
  (forall c c', same_windows c c' -> P c -> P c') ->
  forall cs : list cell, Forall P cs -> Forall P (strike_phase self fr cs).
Proof.
  intros HP cs Hcs. unfold strike_phase.
  assert (H0 : Forall P (map reset_cell cs)).
  { apply Forall_map. eapply Forall_impl; [|exact Hcs].
    intros c Hc. apply (HP c); [repeat split | exact Hc]. }
  revert H0. generalize (map reset_cell cs) as xs.
  induction (f_thrusters fr) as [|n active IH]; intros xs Hxs; simpl.
  - exact Hxs.
  - apply IH. unfold fire_thruster. apply strike_faces_Forall; [|exact Hxs].
    intros fc c Hc. apply (HP c); [|exact Hc].
    apply strike_face_same_windows.
Qed.

Lemma constraint_pass_cells (c : config) (i pk hk : nat) (cs : list cell) :
  forall (qi : nat) (s : bool * list report_line) (cs' : list cell)
         (s' : bool * list report_line),
    constraint_pass c i pk hk qi cs s = Some (cs', s') ->
    Forall2 (fun x x' => evict_cell pk hk x = Some x') cs cs'.
Proof.
  induction cs as [|x cs IH]; intros qi s cs' s' H; simpl in H.
  - injection H as <- <-. constructor.
  - destruct (evict_cell pk hk x) as [x'|] eqn:Ex; [|discriminate].
    destruct (constraint_pass c i pk hk (S qi) cs _) as [[rest s1]|] eqn:Er;
      [|discriminate].
    injection H as <- <-. constructor; [exact Ex|].
    eapply IH. exact Er.
Qed.

Lemma constraint_pass_total (c : config) (i pk hk : nat) (cs : list cell) :
  Forall (fun x => exists x', evict_cell pk hk x = Some x') cs ->
  forall (qi : nat) (s : bool * list report_line),
    exists r, constraint_pass c i pk hk qi cs s = Some r.
Proof.
  induction 1 as [|x cs [x' Hx] _ IH]; intros qi s; simpl.
  - eexists. reflexivity.
  - rewrite Hx.
    destruct (IH (S qi) (check_constraints c i qi x' s)) as [[rest s1] Hr].
    rewrite Hr. eexists. reflexivity.
Qed.

Lemma push_cell_inv (pq hq : list R) (c : cell) :
  cell_window_inv pq hq c ->
  sums_exact (push_cell c)
  /\ pressure_queue (push_cell c) <> []
  /\ length (pressure_queue (push_cell c)) = (length pq + 1)%nat
  /\ (length hq + 1 <= length (heat_flux_queue (push_cell c)))%nat.
Proof.
  intros ([Hp Hh] & Hlp & Hlh). unfold sums_exact. simpl.
  rewrite !sum_queue_app, !length_app. simpl.
  repeat split; try lra; try lia.
  intros E. apply (f_equal (@length R)) in E. rewrite length_app in E.
  simpl in E. lia.
Qed.

Lemma cell_window_inv_same_windows (pq hq : list R) (c c' : cell) :
  same_windows c c' -> cell_window_inv pq hq c -> cell_window_inv pq hq c'.
Proof.
  intros (H1 & H2 & H3 & H4) ([Hp Hh] & Hlp & Hlh).
  unfold cell_window_inv, sums_exact. rewrite H1, H2, H3, H4.
  repeat split; assumption.
Qed.

(** One firing keeps the window invariant. *)
Lemma process_firing_inv (self : RPOD) (st st' : run_state) (fr : firing) :
  process_firing self st fr = Some st' ->
  window_invariant st -> window_invariant st'.
Proof.
  unfold process_firing. intros H [[Htp Hth] Hcells].
  assert (Hstruck : Forall (cell_window_inv (pressure_window_queue st)
                              (heat_flux_window_queue st))
                      (strike_phase self fr (cells st))).
  { apply strike_phase_Forall; [|exact Hcells].
    intros c c'. apply cell_window_inv_same_windows. }
  destruct (constraints_on (cfg self)).
  - destruct (update_window_queue (pressure_window_queue st) _ _ _)
      as [[[pq pw] pk]|] eqn:Ep; [|discriminate].
    destruct (update_window_queue (heat_flux_window_queue st) _ _ _)
      as [[[hq hw] hk]|] eqn:Eh; [|discriminate].
    destruct (constraint_pass _ _ _ _ _ _ _) as [[cs [failed file]]|] eqn:Ec;
      [|discriminate].
    injection H as <-.
    apply update_window_queue_sound in Ep as (Hpk & Hpl & Hps); [|exact Htp].
    apply update_window_queue_sound in Eh as (Hhk & Hhl & Hhs); [|exact Hth].
    apply constraint_pass_cells in Ec.
    split; [split; assumption|]. simpl.
    apply Forall2_flip in Ec.
    assert (Hpushed : Forall (fun x => cell_window_inv (pressure_window_queue st)
                                (heat_flux_window_queue st) x)
                        (strike_phase self fr (cells st))) by exact Hstruck.
    clear Hstruck Hcells.
    remember (strike_phase self fr (cells st)) as struck eqn:Es. clear Es.
    revert cs Ec. induction Hpushed as [|x xs Hx _ IH]; intros cs Ec; simpl in Ec.
    + inversion Ec; subst. constructor.
    + inversion Ec as [|x' ? cs' ? Hev Hrest]; subst.
      constructor; [|apply IH; exact Hrest].
      destruct (push_cell_inv _ _ _ Hx) as (Hs & Hne & Hl1 & Hl2).
      destruct (evict_cell_sound _ _ _ _ Hev Hs Hne) as (Hs' & _ & _ & Hl1' & Hl2').
      split; [exact Hs'|]. split; lia.
  - injection H as <-. split; [split; assumption|]. exact Hstruck.
Qed.

(** With non-negative window sizes no [get] of a firing waits on an empty
    queue. *)
Lemma process_firing_total (self : RPOD) (st : run_state) (fr : firing) :
  0 <= tv_normal_pressure_window_size (cfg self) ->
  0 <= tv_heat_flux_window_size (cfg self) ->
  window_invariant st ->
  exists st', process_firing self st fr = Some st'.
Proof.
  intros Hwp Hwh [[Htp Hth] Hcells]. unfold process_firing.
  assert (Hstruck : Forall (cell_window_inv (pressure_window_queue st)
                              (heat_flux_window_queue st))
                      (strike_phase self fr (cells st))).
  { apply strike_phase_Forall; [|exact Hcells].
    intros c c'. apply cell_window_inv_same_windows. }
  destruct (constraints_on (cfg self)); [|eexists; reflexivity].
  destruct (update_window_queue_total (pressure_window_queue st)
              (pressure_cur_window st) (f_t fr) _ Htp Hwp) as [[[pq pw] pk] Ep].
  destruct (update_window_queue_total (heat_flux_window_queue st)
              (heat_flux_cur_window st) (f_t fr) _ Hth Hwh) as [[[hq hw] hk] Eh].
  rewrite Ep, Eh.
  apply update_window_queue_sound in Ep as (Hpk & _ & _); [|exact Htp].
  apply update_window_queue_sound in Eh as (Hhk & _ & _); [|exact Hth].
  destruct (constraint_pass_total (cfg self)
              (Nat.pred (length (map push_cell (strike_phase self fr (cells st)))))
              pk hk (map push_cell (strike_phase self fr (cells st))))
    with (qi := 0%nat) (s := (failed_constraints st, constraint_file st))
    as [[cs [failed file]] Hc].
  { apply Forall_map. eapply Forall_impl; [|exact Hstruck].
    intros x Hx. destruct (push_cell_inv _ _ _ Hx) as (_ & _ & Hl1 & Hl2).
    apply evict_cell_total; lia. }
  rewrite Hc. eexists. reflexivity.
Qed.

(** ** The replay *)

Lemma init_state_invariant (self : RPOD) : window_invariant (init_state self).
Proof.
  split; [split; reflexivity|]. simpl. apply Forall_map.
  apply Forall_forall. intros fc _. repeat split. simpl. lia.
Qed.

Lemma replay_invariant (self : RPOD) (firings : list firing) :
  forall st st' : run_state,
    replay self firings st = Some st' ->
    window_invariant st -> window_invariant st'.
Proof.
  induction firings as [|fr rest IH]; intros st st' H Hinv; simpl in H.
  - injection H as <-. exact Hinv.
  - destruct (process_firing self st fr) as [st1|] eqn:E; [|discriminate].
    apply (IH st1); [exact H|]. eapply process_firing_inv; eassumption.
Qed.

Lemma replay_total (self : RPOD) (firings : list firing) :
  0 <= tv_normal_pressure_window_size (cfg self) ->
  0 <= tv_heat_flux_window_size (cfg self) ->
  forall st : run_state,
    window_invariant st -> exists st', replay self firings st = Some st'.
Proof.
  intros Hwp Hwh. induction firings as [|fr rest IH]; intros st Hinv; simpl.
  - eexists. reflexivity.
  - destruct (process_firing_total self st fr Hwp Hwh Hinv) as [st1 E].
    rewrite E. apply IH. eapply process_firing_inv; eassumption.
Qed.

Lemma replay_app (self : RPOD) (l1 l2 : list firing) (st : run_state) :
  replay self (l1 ++ l2) st
    = match replay self l1 st with
      | Some st1 => replay self l2 st1
      | None => None
      end.
Proof.
  revert st. induction l1 as [|fr l1 IH]; intros st; simpl.
  - reflexivity.
  - destruct (process_firing self st fr); [apply IH | reflexivity].
Qed.

Lemma firstn_S_nth (A : Type) (l : list A) (n : nat) (x : A) :
  nth_error l n = Some x -> firstn (S n) l = firstn n l ++ [x].
Proof.
  revert n. induction l as [|y l IH]; intros [|n] H; simpl in *; try discriminate.
  - injection H as <-. reflexivity.
  - f_equal. apply IH. exact H.
Qed.

(** The state after firing number [n] comes from the state before it by
    [process_firing]. *)
Lemma state_after_S (self : RPOD) (n : nat) (fr : firing) :
  nth_error (jfh self) n = Some fr ->
  state_after self (S n)
    = match state_after self n with
      | Some st => process_firing self st fr
      | None => None
      end.
Proof.
  intros H. unfold state_after. rewrite (firstn_S_nth _ _ _ _ H), replay_app.
  destruct (replay self (firstn n (jfh self)) (init_state self)); [|reflexivity].
  simpl. destruct (process_firing self r fr); reflexivity.
Qed.


Lemma state_after_invariant (self : RPOD) (n : nat) (st : run_state) :
  state_after self n = Some st -> window_invariant st.
Proof.
  unfold state_after. intros H.
  eapply replay_invariant; [exact H|]. apply init_state_invariant.
Qed.

Lemma state_after_total (self : RPOD) (n : nat) :
  0 <= tv_normal_pressure_window_size (cfg self) ->
  0 <= tv_heat_flux_window_size (cfg self) ->
  exists st : run_state, state_after self n = Some st.
Proof.
  intros Hwp Hwh. unfold state_after.
  apply replay_total; try assumption. apply init_state_invariant.
Qed.

(** ** Evaluating the worked scenarios *)

Ltac decide_R :=
  match goal with
  | |- context [Rgt_dec ?a ?b] =>
      first [ assert (a > b) by lra; destruct (Rgt_dec a b); [|contradiction]
            | assert (~ a > b) by lra; destruct (Rgt_dec a b); [contradiction|] ]
  | |- context [Rlt_dec ?a ?b] =>
      first [ assert (a < b) by lra; destruct (Rlt_dec a b); [|contradiction]
            | assert (~ a < b) by lra; destruct (Rlt_dec a b); [contradiction|] ]
  | |- context [Rle_dec ?a ?b] =>
      first [ assert (a <= b) by lra; destruct (Rle_dec a b); [|contradiction]
            | assert (~ a <= b) by lra; destruct (Rle_dec a b); [contradiction|] ]
  | |- context [Req_dec_T ?a ?b] =>
      first [ assert (a = b) by lra; destruct (Req_dec_T a b); [|contradiction]
            | assert (a <> b) by lra; destruct (Req_dec_T a b); [contradiction|] ]
  end.

Lemma idle_strike_phase (self : RPOD) (xyz : vec) (t : R) (cs : list cell) :
  strike_phase self (firing_at xyz t []) cs = map reset_cell cs.
Proof. reflexivity. Qed.

(** In the scenarios every active thruster strikes the one face. *)
Lemma axis_strike_phase (limit : R) (firings : list firing) (t : R)
    (active : list nat) (c : cell) :
  strike_phase (scenario limit firings) (firing_at origin t active) [c]
    = [fold_left
         (fun x (_ : nat) => record_loads t (SimplePlume 5 0 (1/2)) (record_strike x))
         active (reset_cell c)].
Proof.
  unfold strike_phase. simpl map. generalize (reset_cell c) as x.
  induction active as [|n active IH]; intros x.
  - reflexivity.
  - simpl fold_left. rewrite <- IH. f_equal.
    unfold fire_thruster. simpl.
    rewrite axis_thruster_pos, axis_plume_normal.
    unfold strike_face. fold (scenario_config limit).
    change (cfg (scenario limit firings)) with (scenario_config limit).
    rewrite axis_strike. reflexivity.
Qed.

Lemma far_miss (limit : R) :
  plume_strike (scenario_config limit) origin (Vec 1 0 0) far_face = false.
Proof.
  unfold plume_strike, within_distance.
  assert (Hn : norm_distance origin far_face = 5).
  { unfold norm_distance, distance, centroid, mean3, origin, vsub, far_face.
    cbn [vx vy vz vertex0 vertex1 vertex2].
    replace (0 - (5 + 5 + 5) / 3) with (- 5) by lra.
    replace (0 - (1 + -1 + 0) / 3) with 0 by lra.
    replace (0 - (0 + 1 + -1) / 3) with 0 by lra.
    apply norm_axis. lra. }
  rewrite Hn. unfold Rltb. cbn [plume_radius scenario_config].
  destruct (Rlt_dec 5 1) as [H|_]; [exfalso; lra | reflexivity].
Qed.

(** With two faces every active thruster strikes the near face and misses
    the far one. *)
Lemma two_face_strike_phase (limit : R) (firings : list firing) (t : R)
    (active : list nat) (c0 c1 : cell) :
  strike_phase (two_face_scenario limit firings) (firing_at origin t active)
    [c0; c1]
    = [fold_left
         (fun x (_ : nat) => record_loads t (SimplePlume 5 0 (1/2)) (record_strike x))
         active (reset_cell c0);
       reset_cell c1].
Proof.
  unfold strike_phase. simpl map. generalize (reset_cell c0) as x.
  induction active as [|n active IH]; intros x.
  - reflexivity.
  - simpl fold_left. rewrite <- IH. f_equal.
    unfold fire_thruster. simpl.
    rewrite axis_thruster_pos, axis_plume_normal.
    unfold strike_face.
    change (cfg (two_face_scenario limit firings)) with (scenario_config limit).
    rewrite axis_strike, far_miss. reflexivity.
Qed.

Lemma check_pass (k : constraint_kind) (n : nat) (v thr : R)
    (file : list report_line) :
  ~ v > thr -> check k n v thr (false, file) = (false, file).
Proof.
  intros H. unfold check, Rgtb. destruct (Rgt_dec v thr); [contradiction|].
  reflexivity.
Qed.

Lemma check_fire (k : constraint_kind) (n : nat) (v thr : R)
    (file : list report_line) :
  v > thr ->
  check k n v thr (false, file)
    = (true, file ++ [FailedAtCell k n; Reached k v]).
Proof.
  intros H. unfold check, Rgtb. destruct (Rgt_dec v thr); [|contradiction].
  reflexivity.
Qed.

Lemma check_set (k : constraint_kind) (n : nat) (v thr : R)
    (file : list report_line) :
  check k n v thr (true, file) = (true, file).
Proof. unfold check. simpl. rewrite andb_false_r. reflexivity. Qed.

Ltac check_step :=
  first [ rewrite check_set
        | rewrite check_pass by lra
        | rewrite check_fire by lra ].

Ltac run_step :=
  rewrite ?axis_strike_phase, ?two_face_strike_phase, ?idle_strike_phase;
  unfold update_window_queue, evict_cell, check_constraints,
    Rltb, Rneqb, set_pressure_window, set_heat_flux_window,
    push_cell, reset_cell, record_loads, record_strike, new_cell, queue_empty;
  cbn -[strike_phase Rabs check].

Ltac run_scenario :=
  unfold jfh_plume_strikes, violation_firing, state_after, init_state;
  cbn [firstn jfh target map scenario two_face_scenario replay
       first_failed_firing];
  unfold process_firing;
  cbn [constraints_on cfg scenario two_face_scenario scenario_config
       pm_kinetics tv_check_constraints
       tv_normal_pressure_window_size tv_heat_flux_window_size f_t firing_at
       cells pressure_window_queue pressure_cur_window heat_flux_window_queue
       heat_flux_cur_window failed_constraints constraint_file];
  rewrite ?Rabs_R0;
  repeat (run_step; rewrite ?Rabs_R0; repeat decide_R; repeat check_step).

(** ** C1: the window invariant *)

(** C1 on a face that is struck late.  Four firings of 10 s with windows
    of 15 s; no thruster is active in firings 1 and 2, and in firings 3 and 4
    one thruster strikes the face with 5 units of pressure and 5 units of
    heat-flux load.  After firing 4 each timeline queue holds one duration.
    The pressure queue of the face holds one entry and its window sum is 5.
    The heat-flux queue of the face holds two entries and its window sum is
    10: line 692 skipped the eviction of firing 2 because the face's sum was
    zero, a stale entry stayed in the queue, and every later eviction removed
    an entry one firing too old.  The window sums are still the sums of the
    queues; the heat-flux queue is out of step with its timeline. *)
Theorem heat_flux_queue_out_of_step :
  let s := scenario 100 [firing_at origin 10 []; firing_at origin 10 [];
                         firing_at origin 10 [1%nat]; firing_at origin 10 [1%nat]] in
  exists st : run_state,
    state_after s 4 = Some st
    /\ length (pressure_window_queue st) = 1%nat
    /\ length (heat_flux_window_queue st) = 1%nat
    /\ map (fun c => (length (pressure_queue c), length (heat_flux_queue c)))
         (cells st) = [(1%nat, 2%nat)]
    /\ Forall (fun c => pressures c = 5 /\ heat_flux_load c = 5
                        /\ pressure_window_sum c = 5
                        /\ heat_flux_window_sum c = 10
                        /\ sums_exact c) (cells st)
    /\ ~ specified_window_invariant st.
Proof.
  cbv zeta. eexists. split; [run_scenario; reflexivity|].
  split; [reflexivity|]. split; [reflexivity|]. split; [reflexivity|].
  split.
  - constructor; [|constructor]. unfold sums_exact. simpl.
    repeat split; lra.
  - unfold specified_window_invariant. simpl. intros H.
    inversion H as [|? ? (_ & _ & Hlen) _]. simpl in Hlen. discriminate.
Qed.

(** What the code does keep.  After any number of firings, whenever the
    replay got that far: each timeline sum is the sum of its duration queue,
    and for every face each window sum is the exact sum of the entries of
    that face's queue, the pressure queue is as long as the pressure timeline
    queue, and the heat-flux queue is at least as long as the heat-flux
    timeline queue.  With non-negative window sizes the replay always gets
    that far: no queue is read while empty. *)
Theorem window_invariant_after_each_firing (self : RPOD) (n : nat) :
  (forall st : run_state, state_after self n = Some st -> window_invariant st)
  /\ (0 <= tv_normal_pressure_window_size (cfg self) ->
      0 <= tv_heat_flux_window_size (cfg self) ->
      exists st : run_state, state_after self n = Some st).
Proof.
  split.
  - intros st H. eapply state_after_invariant. exact H.
  - apply state_after_total.
Qed.

Lemma window_invariant_after_each_firing_witness :
  exists st : run_state,
    state_after (scenario 100 [firing_at origin 10 []; firing_at origin 10 []]) 2
      = Some st
    /\ window_invariant st.
Proof.
  destruct (window_invariant_after_each_firing
              (scenario 100 [firing_at origin 10 []; firing_at origin 10 []]) 2)
    as [Hinv Htot].
  destruct Htot as [st Hst]; [simpl; lra | simpl; lra |].
  exists st. split; [exact Hst | apply Hinv; exact Hst].
Defined.

(** ** C8: scenario B *)

(** C8, as stated, fails after the second firing already: two firings of
    10 s make 20 s, which exceeds the 15 s window, so the entry of firing 1
    is evicted and the window sums of the face are 5, not 10. *)
Lemma second_firing_evicts_first :
  exists st : run_state,
    state_after
      (scenario 100 [firing_at origin 10 [1%nat]; firing_at origin 10 [1%nat]]) 2
      = Some st
    /\ map pressures (cells st) = [0 + 5]
    /\ map (fun c => length (pressure_queue c)) (cells st) = [1%nat]
    /\ Forall (fun c => pressure_window_sum c = 5 /\ pressure_window_sum c <> 10
                        /\ heat_flux_window_sum c = 5) (cells st).
Proof.
  eexists. split; [run_scenario; reflexivity|].
  split; [reflexivity|]. split; [reflexivity|].
  constructor; [|constructor]. simpl. repeat split; lra.
Qed.

(** C8, amended.  Three firings of 10 s with windows of 15 s; the face
    receives 5 units of pressure and 5 units of heat-flux load in firings 1
    and 2, and 10 units of each in firing 3 (two thrusters strike it).  After
    firing 1 the window sums are 5.  After firing 2 they are 5 again: the
    durations add up to 20 s > 15 s, the entry of firing 1 is evicted and
    only the entry of firing 2 stays.  After firing 3 they are 10, the
    contribution of firing 3 alone: the entry of firing 2 is evicted in its
    turn.  Each queue holds one entry throughout. *)
Theorem scenario_B_window_sums :
  let s := scenario 100 [firing_at origin 10 [1%nat]; firing_at origin 10 [1%nat];
                         firing_at origin 10 [1%nat; 2%nat]] in
  let view (st : run_state) :=
    map (fun c => (pressures c, pressure_window_sum c, length (pressure_queue c),
                   (heat_flux_load c, heat_flux_window_sum c,
                    length (heat_flux_queue c)))) (cells st) in
  exists st1 st2 st3 : run_state,
    state_after s 1 = Some st1
    /\ state_after s 2 = Some st2
    /\ state_after s 3 = Some st3
    /\ view st1 = [(5, 5, 1%nat, (5, 5, 1%nat))]
    /\ view st2 = [(5, 5, 1%nat, (5, 5, 1%nat))]
    /\ view st3 = [(10, 10, 1%nat, (10, 10, 1%nat))]
    /\ length (pressure_window_queue st2) = 1%nat
    /\ length (pressure_window_queue st3) = 1%nat.
Proof.
  cbv zeta.
  eexists. eexists. eexists.
  split; [run_scenario; reflexivity|].
  split; [run_scenario; reflexivity|].
  split; [run_scenario; reflexivity|].
  simpl.
  split; [repeat f_equal; lra|].
  split; [repeat f_equal; lra|].
  split; [repeat f_equal; lra|].
  split; reflexivity.
Qed.

(** ** One face through a whole firing *)

Lemma evict_cell_same_loads (pk hk : nat) (c c' : cell) :
  evict_cell pk hk c = Some c' -> same_loads c c'.
Proof.
  unfold evict_cell. intros H.
  destruct (negb (queue_empty (pressure_queue c))).
  - destruct (update_parameter_queue (pressure_queue c) _ pk) as [w|];
      simpl in H; [|discriminate].
    destruct (_ && _).
    + destruct (update_parameter_queue _ _ hk) as [w'|]; simpl in H; [|discriminate].
      injection H as <-. repeat split.
    + injection H as <-. repeat split.
  - destruct (_ && _).
    + destruct (update_parameter_queue _ _ hk) as [w'|]; simpl in H; [|discriminate].
      injection H as <-. repeat split.
    + injection H as <-. repeat split.
Qed.

Lemma Forall2_nth_error (A B : Type) (P : A -> B -> Prop) (l : list A)
    (l' : list B) :
  Forall2 P l l' ->
  forall (i : nat) (x : A),
    nth_error l i = Some x -> exists y, nth_error l' i = Some y /\ P x y.
Proof.
  induction 1 as [|a b l l' Hab _ IH]; intros [|i] x Hx; simpl in *;
    try discriminate.
  - injection Hx as <-. exists b. split; [reflexivity | exact Hab].
  - apply IH. exact Hx.
Qed.

(** After a firing the array entries of a face are those the strike phase
    computed for it; the window update touches the queues only. *)
Lemma process_firing_cell (self : RPOD) (st st' : run_state) (fr : firing)
    (i : nat) (fc : face) (c : cell) :
  process_firing self st fr = Some st' ->
  nth_error (target self) i = Some fc ->
  nth_error (cells st) i = Some c ->
  exists c', nth_error (cells st') i = Some c'
             /\ same_loads (struck_cell self fr fc c) c'.
Proof.
  unfold process_firing. intros H Hf Hc.
  pose proof (strike_phase_nth self fr (cells st) i fc c Hf Hc) as Hs.
  destruct (constraints_on (cfg self)).
  - destruct (update_window_queue (pressure_window_queue st) _ _ _)
      as [[[pq pw] pk]|]; [|discriminate].
    destruct (update_window_queue (heat_flux_window_queue st) _ _ _)
      as [[[hq hw] hk]|]; [|discriminate].
    destruct (constraint_pass _ _ _ _ _ _ _) as [[cs [failed file]]|] eqn:Ec;
      [|discriminate].
    injection H as <-. simpl.
    apply constraint_pass_cells in Ec.
    destruct (Forall2_nth_error _ _ _ _ _ Ec i (push_cell (struck_cell self fr fc c)))
      as (c' & Hc' & Hev).
    { rewrite nth_error_map, Hs. reflexivity. }
    exists c'. split; [exact Hc'|].
    apply evict_cell_same_loads in Hev. exact Hev.
  - injection H as <-. simpl. exists (struck_cell self fr fc c).
    split; [exact Hs | repeat split].
Qed.

Lemma strike_faces_length (step : face -> cell -> cell) (faces : list face) :
  forall cs : list cell,
    length cs = length faces -> length (strike_faces step faces cs) = length faces.
Proof.
  induction faces as [|fc faces IH]; intros [|c cs] H; simpl in *;
    try reflexivity; try discriminate.
  f_equal. apply IH. lia.
Qed.

Lemma strike_phase_length (self : RPOD) (fr : firing) (cs : list cell) :
  length cs = length (target self) ->
  length (strike_phase self fr cs) = length (target self).
Proof.
  intros H. unfold strike_phase.
  assert (H0 : length (map reset_cell cs) = length (target self))
    by (rewrite length_map; exact H).
  revert H0. generalize (map reset_cell cs) as xs.
  induction (f_thrusters fr) as [|n active IH]; intros xs Hxs; simpl.
  - exact Hxs.
  - apply IH. unfold fire_thruster. apply strike_faces_length. exact Hxs.
Qed.

Lemma process_firing_length (self : RPOD) (st st' : run_state) (fr : firing) :
  process_firing self st fr = Some st' ->
  length (cells st) = length (target self) ->
  length (cells st') = length (target self).
Proof.
  unfold process_firing. intros H Hl.
  pose proof (strike_phase_length self fr (cells st) Hl) as Hs.
  destruct (constraints_on (cfg self)).
  - destruct (update_window_queue (pressure_window_queue st) _ _ _)
      as [[[pq pw] pk]|]; [|discriminate].
    destruct (update_window_queue (heat_flux_window_queue st) _ _ _)
      as [[[hq hw] hk]|]; [|discriminate].
    destruct (constraint_pass _ _ _ _ _ _ _) as [[cs [failed file]]|] eqn:Ec;
      [|discriminate].
    injection H as <-. simpl.
    apply constraint_pass_cells in Ec. apply Forall2_length in Ec.
    rewrite length_map in Ec. lia.
  - injection H as <-. exact Hs.
Qed.

(** Every reachable state has one cell per face. *)
Lemma state_after_length (self : RPOD) (n : nat) (st : run_state) :
  state_after self n = Some st -> length (cells st) = length (target self).
Proof.
  unfold state_after.
  assert (H0 : length (cells (init_state self)) = length (target self))
    by (simpl; apply length_map).
  revert H0. generalize (init_state self) as s0.
  induction (firstn n (jfh self)) as [|fr rest IH]; intros s0 H0 H; simpl in H.
  - injection H as <-. exact H0.
  - destruct (process_firing self s0 fr) as [s1|] eqn:E; [|discriminate].
    apply (IH s1); [|exact H]. eapply process_firing_length; eassumption.
Qed.

Lemma state_after_cell (self : RPOD) (n : nat) (st : run_state)
    (i : nat) (fc : face) :
  state_after self n = Some st ->
  nth_error (target self) i = Some fc ->
  exists c, nth_error (cells st) i = Some c.
Proof.
  intros Hst Hf. apply state_after_length in Hst.
  destruct (nth_error (cells st) i) as [c|] eqn:E; [exists c; reflexivity|].
  apply nth_error_None in E.
  assert (i < length (target self))%nat
    by (apply nth_error_Some; rewrite Hf; discriminate).
  lia.
Qed.

(** Two consecutive reachable states, seen at one face. *)
Lemma firing_step_cell (self : RPOD) (n : nat) (fr : firing)
    (st st' : run_state) (i : nat) (fc : face) :
  nth_error (jfh self) n = Some fr ->
  state_after self n = Some st ->
  state_after self (S n) = Some st' ->
  nth_error (target self) i = Some fc ->
  exists c c',
    nth_error (cells st) i = Some c
    /\ nth_error (cells st') i = Some c'
    /\ same_loads (struck_cell self fr fc c) c'.
Proof.
  intros Hfr Hst Hst' Hf.
  destruct (state_after_cell self n st i fc Hst Hf) as [c Hc].
  rewrite (state_after_S self n fr Hfr), Hst in Hst'.
  destruct (process_firing_cell self st st' fr i fc c Hst' Hf Hc) as (c' & Hc' & Hl).
  exists c, c'. repeat split; try assumption; apply Hl.
Qed.

(** ** C10: the strike flag and the strike counter *)

Lemma axis_striking_thrusters (limit : R) (firings : list firing) (t : R)
    (active : list nat) :
  striking_thrusters (scenario limit firings) (firing_at origin t active) axis_face
    = length active.
Proof.
  unfold striking_thrusters. simpl f_thrusters.
  set (hit := fun n : nat => plume_strike _ _ _ axis_face).
  assert (Hall : forall n, hit n = true).
  { intros n. unfold hit. simpl thruster_data.
    rewrite axis_thruster_pos, axis_plume_normal. apply axis_strike. }
  clearbody hit.
  induction active as [|n active IH]; [reflexivity|].
  simpl. rewrite Hall. simpl. f_equal. exact IH.
Qed.

(** C10. For every firing and every face, the [strikes] entry handed to the
    mesh writer is 0 when no active thruster strikes the face and 1 when at
    least one does, whatever the number of striking thrusters, while
    [cum_strikes] grows by the number of striking thrusters: with k of them,
    [cum_strikes] grows by k and [strikes] is 1. *)
Theorem strikes_flag_and_counter (self : RPOD) (n : nat) (fr : firing)
    (st st' : run_state) (i : nat) (fc : face) :
  nth_error (jfh self) n = Some fr ->
  state_after self n = Some st ->
  state_after self (S n) = Some st' ->
  nth_error (target self) i = Some fc ->
  exists c c' : cell,
    nth_error (cells st) i = Some c
    /\ nth_error (cells st') i = Some c'
    /\ (strikes c' = 0%nat \/ strikes c' = 1%nat)
    /\ (strikes c' = 1%nat <-> (0 < striking_thrusters self fr fc)%nat)
    /\ cum_strikes c' = (cum_strikes c + striking_thrusters self fr fc)%nat.
Proof.
  intros Hfr Hst Hst' Hf.
  destruct (firing_step_cell self n fr st st' i fc Hfr Hst Hst' Hf)
    as (c & c' & Hc & Hc' & Hs & Hcs & _).
  destruct (struck_cell_strikes self fr fc c) as [G1 G2].
  exists c, c'. split; [exact Hc|]. split; [exact Hc'|].
  rewrite Hs, Hcs, G1, G2.
  destruct (striking_thrusters self fr fc) as [|k]; simpl.
  - split; [left; reflexivity|]. split; [|reflexivity].
    split; [discriminate | lia].
  - split; [right; reflexivity|]. split; [|reflexivity].
    split; [lia | reflexivity].
Qed.

Lemma strikes_flag_and_counter_witness :
  let s := scenario 100 [firing_at origin 10 [1%nat; 2%nat; 3%nat]] in
  exists st st' : run_state,
    state_after s 0 = Some st
    /\ state_after s 1 = Some st'
    /\ map (fun c => (strikes c, cum_strikes c)) (cells st) = [(0%nat, 0%nat)]
    /\ map (fun c => (strikes c, cum_strikes c)) (cells st') = [(1%nat, 3%nat)].
Proof.
  cbv zeta.
  destruct (state_after_total
              (scenario 100 [firing_at origin 10 [1%nat; 2%nat; 3%nat]]) 1)
    as [st' Hst']; [simpl; lra | simpl; lra |].
  exists (init_state (scenario 100 [firing_at origin 10 [1%nat; 2%nat; 3%nat]])), st'.
  split; [reflexivity|]. split; [exact Hst'|]. split; [reflexivity|].
  destruct (strikes_flag_and_counter
              (scenario 100 [firing_at origin 10 [1%nat; 2%nat; 3%nat]])
              0 (firing_at origin 10 [1%nat; 2%nat; 3%nat])
              (init_state (scenario 100 [firing_at origin 10 [1%nat; 2%nat; 3%nat]]))
              st' 0 axis_face eq_refl eq_refl Hst' eq_refl)
    as (c & c' & Hc & Hc' & _ & Hflag & Hcum).
  rewrite axis_striking_thrusters in Hflag, Hcum.
  simpl in Hc. injection Hc as <-. simpl in Hcum, Hflag.
  apply state_after_length in Hst'. simpl in Hst'.
  destruct (cells st') as [|x [|y rest]]; try discriminate.
  simpl in Hc'. injection Hc' as ->. simpl.
  rewrite Hcum. rewrite (proj2 Hflag) by lia. reflexivity.
Defined.

(** ** C9: accumulated quantities *)

Lemma non_decreasing_refl (c : cell) : non_decreasing c c.
Proof. unfold non_decreasing. repeat split; try lra; lia. Qed.

Lemma non_decreasing_trans (a b c : cell) :
  non_decreasing a b -> non_decreasing b c -> non_decreasing a c.
Proof.
  unfold non_decreasing. intros (A1 & A2 & A3 & A4) (B1 & B2 & B3 & B4).
  repeat split; try lra; lia.
Qed.

Lemma strike_face_non_decreasing (self : RPOD) (t : R) (thr : thruster)
    (tp pn : vec) (fc : face) (c : cell) :
  heat_flux_nonneg self -> 0 <= t ->
  non_decreasing c (strike_face self t thr tp pn fc c).
Proof.
  intros Hk Ht. unfold strike_face.
  destruct (plume_strike (cfg self) tp pn fc); [|apply non_decreasing_refl].
  destruct (pm_kinetics (cfg self)).
  - unfold non_decreasing. simpl. repeat split; try lra; lia.
  - unfold non_decreasing, record_loads. simpl.
    match goal with
    | |- context [SimplifiedGasKinetics self ?d ?th ?m ?tw ?sg] =>
        pose proof (Hk d th m tw sg) as Hh;
        set (sp := SimplifiedGasKinetics self d th m tw sg) in *
    end.
    split; [lia|]. split; [nra|]. split.
    + destruct (Rgt_dec _ _); lra.
    + destruct (Rgt_dec _ _); lra.
  - unfold non_decreasing. simpl. repeat split; try lra; lia.
Qed.

Lemma struck_cell_non_decreasing (self : RPOD) (fr : firing) (fc : face)
    (c : cell) :
  heat_flux_nonneg self -> 0 <= f_t fr ->
  non_decreasing c (struck_cell self fr fc c).
Proof.
  intros Hk Ht. unfold struck_cell.
  assert (H0 : non_decreasing c (reset_cell c))
    by (unfold non_decreasing; simpl; repeat split; try lra; lia).
  revert H0. generalize (reset_cell c) as x.
  induction (f_thrusters fr) as [|n active IH]; intros x Hx; simpl.
  - exact Hx.
  - apply IH. eapply non_decreasing_trans; [exact Hx|].
    apply strike_face_non_decreasing; assumption.
Qed.

(** C9, as stated, fails for the cumulative heat-flux load: the load added
    by a strike is the heat-flux rate times the firing's [t], and nothing
    keeps [t] from being negative.  With a kinetics model that answers
    pressure 5 and heat-flux rate 1/2, a firing with t = -1 takes the
    cumulative load of the struck face from 0 to -1/2. *)
Lemma negative_duration_lowers_cumulative_load :
  let s := scenario 100 [firing_at origin (-1) [1%nat]] in
  pressure_nonneg s /\ heat_flux_nonneg s
  /\ exists st st' : run_state,
       state_after s 0 = Some st
       /\ state_after s 1 = Some st'
       /\ map cum_heat_flux_load (cells st) = [0]
       /\ map cum_heat_flux_load (cells st') = [0 + 1 / 2 * -1]
       /\ 0 + 1 / 2 * -1 < 0.
Proof.
  cbv zeta. split; [intros d th m tw sg; simpl; lra|].
  split; [intros d th m tw sg; simpl; lra|].
  eexists. eexists. split; [reflexivity|].
  split; [run_scenario; reflexivity|].
  split; [reflexivity|]. split; [reflexivity | lra].
Qed.

(** C9, amended.  For every face and every firing of the replay whose
    duration [t] is not negative, with a kinetics model that returns
    non-negative heat-flux values: the cumulative strike count, the
    cumulative heat-flux load, the running maximum pressure and the running
    maximum shear of the face after the firing are each greater than or equal
    to their values before it. *)
Theorem accumulators_non_decreasing (self : RPOD) (n : nat) (fr : firing)
    (st st' : run_state) (i : nat) (fc : face) :
  heat_flux_nonneg self ->
  0 <= f_t fr ->
  nth_error (jfh self) n = Some fr ->
  state_after self n = Some st ->
  state_after self (S n) = Some st' ->
  nth_error (target self) i = Some fc ->
  exists c c' : cell,
    nth_error (cells st) i = Some c
    /\ nth_error (cells st') i = Some c'
    /\ (cum_strikes c <= cum_strikes c')%nat
    /\ cum_heat_flux_load c <= cum_heat_flux_load c'
    /\ max_pressures c <= max_pressures c'
    /\ max_shears c <= max_shears c'.
Proof.
  intros Hk Ht Hfr Hst Hst' Hf.
  destruct (firing_step_cell self n fr st st' i fc Hfr Hst Hst' Hf)
    as (c & c' & Hc & Hc' & Hl).
  destruct Hl as (_ & L2 & _ & L4 & _ & L6 & _ & _ & L9).
  destruct (struck_cell_non_decreasing self fr fc c Hk Ht) as (M1 & M2 & M3 & M4).
  exists c, c'. split; [exact Hc|]. split; [exact Hc'|].
  rewrite L2, L4, L6, L9. repeat split; assumption.
Qed.

Lemma accumulators_non_decreasing_witness :
  let s := scenario 100 [firing_at origin 10 [1%nat]] in
  exists (st' : run_state) (c c' : cell),
    state_after s 1 = Some st'
    /\ nth_error (cells (init_state s)) 0 = Some c
    /\ nth_error (cells st') 0 = Some c'
    /\ cum_heat_flux_load c <= cum_heat_flux_load c'
    /\ max_pressures c <= max_pressures c'.
Proof.
  cbv zeta.
  destruct (state_after_total (scenario 100 [firing_at origin 10 [1%nat]]) 1)
    as [st' Hst']; [simpl; lra | simpl; lra |].
  destruct (accumulators_non_decreasing
              (scenario 100 [firing_at origin 10 [1%nat]]) 0
              (firing_at origin 10 [1%nat])
              (init_state (scenario 100 [firing_at origin 10 [1%nat]]))
              st' 0 axis_face)
    as (c & c' & Hc & Hc' & _ & H2 & H3 & _).
  - intros d th m tw sg. simpl. lra.
  - simpl. lra.
  - reflexivity.
  - reflexivity.
  - exact Hst'.
  - reflexivity.
  - exists st', c, c'. repeat split; assumption.
Defined.

(** ** The constraint checks *)








(** ** The report across the replay *)





(** ** C6: one violation at most *)



(** ** C7: what the report says about a violation *)


(** The cell number of an instantaneous violation.  With two faces, a
    firing whose pressure exceeds the threshold at face 0 only is reported
    with cell number 1: the three instantaneous messages print [i], left at
    the last index by the loop of line 675, where the two window messages
    print [queue_index]. *)
Lemma instantaneous_violation_prints_last_cell :
  exists (st : run_state) (report : list report_line),
    jfh_plume_strikes (two_face_scenario 1 [firing_at origin 10 [1%nat]])
      = Some (st, report)
    /\ map pressures (cells st) = [0 + 5; 0]
    /\ report = [FailedAtCell Pressure 1; Reached Pressure (0 + 5)].
Proof.
  eexists. eexists. split; [run_scenario; reflexivity|].
  split; reflexivity.
Qed.



(** * Properties of the further functions *)

(** ** [rotation_matrix_from_vectors] *)

Lemma sum_squares_nonneg (v : vec) : 0 <= vx v ^ 2 + vy v ^ 2 + vz v ^ 2.
Proof. nra. Qed.

Lemma norm_sqr (v : vec) : norm v ^ 2 = vx v ^ 2 + vy v ^ 2 + vz v ^ 2.
Proof.
  unfold norm.
  replace (sqrt (vx v ^ 2 + vy v ^ 2 + vz v ^ 2) ^ 2)
    with (sqrt (vx v ^ 2 + vy v ^ 2 + vz v ^ 2)
          * sqrt (vx v ^ 2 + vy v ^ 2 + vz v ^ 2)) by ring.
  apply sqrt_sqrt. apply sum_squares_nonneg.
Qed.

(** A vector divided by its norm has unit length. *)
Lemma np_divide_unit (v a : vec) :
  np_divide v (norm v) = Some a -> dot a a = 1.
Proof.
  unfold np_divide. destruct (Req_dec_T (norm v) 0) as [|Hn]; [discriminate|].
  intros H. injection H as <-. unfold dot. simpl.
  pose proof (norm_sqr v) as Hs.
  replace (vx v / norm v * (vx v / norm v) + vy v / norm v * (vy v / norm v)
           + vz v / norm v * (vz v / norm v))
    with ((vx v ^ 2 + vy v ^ 2 + vz v ^ 2) / norm v ^ 2) by (field; exact Hn).
  rewrite <- Hs. field. exact Hn.
Qed.

Lemma kmat_apply (v a : vec) : mapply (kmat v) a = cross v a.
Proof. unfold mapply, kmat, cross, dot. simpl. f_equal; ring. Qed.

Lemma kmat_sqr_apply (a b : vec) :
  mapply (mdot (kmat (cross a b)) (kmat (cross a b))) a
    = vscale (- (vx (cross a b) ^ 2 + vy (cross a b) ^ 2 + vz (cross a b) ^ 2)) a.
Proof.
  unfold mapply, mdot, transpose, kmat, cross, dot, vscale. simpl.
  f_equal; ring.
Qed.

Lemma cross_cross_left (a b : vec) :
  cross (cross a b) a = vsub (vscale (dot a a) b) (vscale (dot a b) a).
Proof. unfold cross, vsub, vscale, dot. simpl. f_equal; ring. Qed.

Lemma mapply_madd (m n : mat3) (a : vec) :
  mapply (madd m n) a = vadd (mapply m a) (mapply n a).
Proof. unfold mapply, madd, vadd, dot. simpl. f_equal; ring. Qed.

Lemma mapply_mscale (k : R) (m : mat3) (a : vec) :
  mapply (mscale k m) a = vscale k (mapply m a).
Proof. unfold mapply, mscale, vscale, dot. simpl. f_equal; ring. Qed.

Lemma mapply_identity (a : vec) : mapply identity3 a = a.
Proof. destruct a. unfold mapply, identity3, dot. simpl. f_equal; ring. Qed.

Lemma align_component (x y aa c q : R) :
  aa = 1 -> q <> 0 ->
  x + (aa * y - c * x) + (1 - c) / q * (- q * x) = y.
Proof. intros -> Hq. field. exact Hq. Qed.

(** What the function returns when neither division yields [nan]. *)
Lemma rotation_matrix_from_vectors_some (vec1 vec2 a b : vec) :
  np_divide vec1 (norm vec1) = Some a ->
  np_divide vec2 (norm vec2) = Some b ->
  norm (cross a b) ^ 2 <> 0 ->
  rotation_matrix_from_vectors vec1 vec2
    = Some (madd (madd identity3 (kmat (cross a b)))
                 (mscale ((1 - dot a b) / norm (cross a b) ^ 2)
                    (mdot (kmat (cross a b)) (kmat (cross a b))))).
Proof.
  intros Ha Hb Hs. unfold rotation_matrix_from_vectors. rewrite Ha, Hb.
  cbv zeta. destruct (Req_dec_T (norm (cross a b) ^ 2) 0); [contradiction|].
  reflexivity.
Qed.

(** X1. Whenever [rotation_matrix_from_vectors vec1 vec2] is a matrix of
    numbers, the matrix takes the unit vector of [vec1] to the unit vector of
    [vec2]. *)
Theorem rotation_matrix_aligns (vec1 vec2 : vec) (r : mat3) :
  rotation_matrix_from_vectors vec1 vec2 = Some r ->
  exists a b : vec,
    np_divide vec1 (norm vec1) = Some a
    /\ np_divide vec2 (norm vec2) = Some b
    /\ dot a a = 1 /\ dot b b = 1
    /\ mapply r a = b.
Proof.
  unfold rotation_matrix_from_vectors.
  destruct (np_divide vec1 (norm vec1)) as [a|] eqn:Ha; [|discriminate].
  destruct (np_divide vec2 (norm vec2)) as [b|] eqn:Hb; [|discriminate].
  cbv zeta. destruct (Req_dec_T (norm (cross a b) ^ 2) 0) as [|Hs]; [discriminate|].
  intros H. injection H as <-.
  pose proof (np_divide_unit _ _ Ha) as Haa.
  pose proof (np_divide_unit _ _ Hb) as Hbb.
  exists a, b. repeat split; try assumption.
  rewrite !mapply_madd, mapply_mscale, mapply_identity, kmat_apply,
    kmat_sqr_apply, cross_cross_left.
  rewrite norm_sqr in Hs.
  change (norm (cross a b) * (norm (cross a b) * 1))
    with (norm (cross a b) ^ 2).
  rewrite norm_sqr.
  set (q := vx (cross a b) ^ 2 + vy (cross a b) ^ 2 + vz (cross a b) ^ 2) in *.
  clearbody q.
  destruct b as [bx by_ bz]. unfold vadd, vsub, vscale.
  cbn [vx vy vz].
  f_equal; apply align_component; assumption.
Qed.

Lemma norm_x : norm (Vec 1 0 0) = 1.
Proof.
  unfold norm. simpl vx; simpl vy; simpl vz.
  replace (1 ^ 2 + 0 ^ 2 + 0 ^ 2) with 1 by ring. apply sqrt_1.
Qed.

Lemma norm_minus_z : norm (Vec 0 0 (-1)) = 1.
Proof.
  unfold norm. simpl vx; simpl vy; simpl vz.
  replace (0 ^ 2 + 0 ^ 2 + (-1) ^ 2) with 1 by ring. apply sqrt_1.
Qed.

(** The call of [print_JFH_param_curve] with [align = False]: from +X to
    -Z. *)
Lemma rotation_matrix_aligns_witness :
  exists r : mat3,
    rotation_matrix_from_vectors (Vec 1 0 0) (Vec 0 0 (-1)) = Some r
    /\ mapply r (Vec (1 / 1) (0 / 1) (0 / 1)) = Vec (0 / 1) (0 / 1) (-1 / 1).
Proof.
  assert (Ha : np_divide (Vec 1 0 0) (norm (Vec 1 0 0))
               = Some (Vec (1 / 1) (0 / 1) (0 / 1))).
  { rewrite norm_x. unfold np_divide.
    destruct (Req_dec_T 1 0) as [H|_]; [exfalso; lra | reflexivity]. }
  assert (Hb : np_divide (Vec 0 0 (-1)) (norm (Vec 0 0 (-1)))
               = Some (Vec (0 / 1) (0 / 1) (-1 / 1))).
  { rewrite norm_minus_z. unfold np_divide.
    destruct (Req_dec_T 1 0) as [H|_]; [exfalso; lra | reflexivity]. }
  eexists. split.
  - apply (rotation_matrix_from_vectors_some _ _ _ _ Ha Hb).
    rewrite norm_sqr. unfold cross. simpl. lra.
  - destruct (rotation_matrix_aligns (Vec 1 0 0) (Vec 0 0 (-1)) _
                (rotation_matrix_from_vectors_some _ _ _ _ Ha Hb
                   ltac:(rewrite norm_sqr; unfold cross; simpl; lra)))
      as (a & b & Ha' & Hb' & _ & _ & Hr).
    rewrite Ha in Ha'. rewrite Hb in Hb'.
    injection Ha' as <-. injection Hb' as <-. exact Hr.
Defined.

(** X2. When the second vector is the first one itself or its opposite,
    every entry of the result is [nan]: the two unit vectors are then equal
    or opposite entry by entry, their cross product is zero, [s] is zero and
    the factor (1 - c) / s ** 2 divides by zero.  The function has no branch
    for vectors that are aligned already. *)
Theorem rotation_matrix_same_or_opposite_is_nan (v : vec) :
  rotation_matrix_from_vectors v v = None
  /\ rotation_matrix_from_vectors v (vscale (-1) v) = None.
Proof.
  assert (Hgen : forall w k, w = vscale k v ->
                   rotation_matrix_from_vectors v w = None).
  { intros w k Hw. unfold rotation_matrix_from_vectors.
    destruct (np_divide v (norm v)) as [a|] eqn:Ha; [|reflexivity].
    destruct (np_divide w (norm w)) as [b|] eqn:Hb; [|reflexivity].
    cbv zeta.
    assert (Hq : norm (cross a b) ^ 2 = 0).
    { rewrite norm_sqr. unfold np_divide in Ha, Hb.
      destruct (Req_dec_T (norm v) 0); [discriminate|].
      destruct (Req_dec_T (norm w) 0); [discriminate|].
      injection Ha as <-. injection Hb as <-. subst w.
      unfold cross, vscale. simpl. unfold Rdiv. ring. }
    destruct (Req_dec_T (norm (cross a b) ^ 2) 0); [reflexivity|contradiction]. }
  split.
  - apply (Hgen v 1). destruct v. unfold vscale. simpl. f_equal; ring.
  - apply (Hgen _ (-1)). reflexivity.
Qed.

(** ** More on the two queue functions *)

(** X3. [update_parameter_queue] either removes exactly the [get_counter]
    oldest entries and subtracts their sum, or, when the queue holds fewer
    than [get_counter] entries, waits for ever on the emptied queue. *)
Theorem update_parameter_queue_characterised (param_queue : list R)
    (param_window_sum : R) (get_counter : nat) :
  update_parameter_queue param_queue param_window_sum get_counter
    = if Nat.leb get_counter (length param_queue) then
        Some (skipn get_counter param_queue,
              param_window_sum - sum_queue (firstn get_counter param_queue))
      else None.
Proof.
  destruct (Nat.leb get_counter (length param_queue)) eqn:E.
  - apply Nat.leb_le in E. apply update_parameter_queue_spec. exact E.
  - apply Nat.leb_gt in E. apply update_parameter_queue_blocks. exact E.
Qed.

Lemma sum_queue_nonneg (q : list R) :
  Forall (fun x => 0 <= x) q -> 0 <= sum_queue q.
Proof.
  induction 1 as [|x q Hx _ IH]; simpl; lra.
Qed.

Lemma Forall_skipn (A : Type) (P : A -> Prop) (n : nat) (l : list A) :
  Forall P l -> Forall P (skipn n l).
Proof.
  revert l. induction n as [|n IH]; intros l H; simpl; [exact H|].
  destruct l as [|x l]; [constructor|]. inversion H; subst. apply IH. assumption.
Qed.

(** The sum of a non-empty suffix of [q ++ [t]] is at least [t] when the
    entries of [q] are not negative. *)
Lemma suffix_sum_at_least_last (q : list R) (t : R) (j : nat) :
  Forall (fun x => 0 <= x) q ->
  (j < length (q ++ [t]))%nat ->
  t <= sum_queue (skipn j (q ++ [t])).
Proof.
  intros Hq Hj. rewrite length_app in Hj. simpl in Hj.
  rewrite skipn_app.
  assert (Hz : (j - length q = 0)%nat) by lia. rewrite Hz. simpl skipn.
  assert (Hs : sum_queue (skipn j q ++ [t]) = sum_queue (skipn j q) + t)
    by apply sum_queue_app.
  rewrite Hs. pose proof (sum_queue_nonneg _ (Forall_skipn _ _ j _ Hq)). lra.
Qed.

(** X4. A firing that is longer than the window clears the timeline: with
    durations that are not negative and an exact running sum, a
    [firing_time] above a non-negative [window_size] makes
    [update_window_queue] return the empty queue, the sum of the empty queue
    and a counter equal to the number of entries the queue held, the new one
    included. *)
Theorem long_firing_clears_timeline (window_queue : list R)
    (cur_window firing_time window_size : R) :
  Forall (fun x => 0 <= x) window_queue ->
  cur_window = sum_queue window_queue ->
  0 <= window_size ->
  window_size < firing_time ->
  update_window_queue window_queue cur_window firing_time window_size
    = Some ([], sum_queue [], S (length window_queue)).
Proof.
  intros Hq Hcur Hw Ht. unfold update_window_queue.
  destruct (evict_window_spec window_size (window_queue ++ [firing_time]) Hw
              (cur_window + firing_time) 0%nat)
    as (n & Heq & Hlen & Hfit & _).
  { rewrite sum_queue_app. lra. }
  assert (Hn : n = length (window_queue ++ [firing_time])).
  { destruct (Nat.eq_dec n (length (window_queue ++ [firing_time])))
      as [E|E]; [exact E|].
    exfalso.
    pose proof (suffix_sum_at_least_last window_queue firing_time n Hq
                  ltac:(lia)). lra. }
  rewrite Heq. rewrite Hn, skipn_all. simpl Nat.add.
  rewrite length_app. simpl. repeat f_equal. lia.
Qed.

Lemma long_firing_clears_timeline_witness :
  update_window_queue [5; 5] (5 + (5 + 0)) 20 15 = Some ([], sum_queue [], 3%nat).
Proof.
  apply (long_firing_clears_timeline [5; 5] (5 + (5 + 0)) 20 15).
  - repeat constructor; lra.
  - reflexivity.
  - lra.
  - lra.
Defined.

Lemma evict_window_negative_window (window_size : R) (q : list R) :
  window_size < 0 ->
  Forall (fun x => 0 <= x) q ->
  forall (cur : R) (k0 : nat),
    cur = sum_queue q -> evict_window q cur window_size k0 = None.
Proof.
  intros Hw. induction 1 as [|x q Hx Hq IH]; intros cur k0 Hcur; simpl in *.
  - destruct (Rgt_dec cur window_size) as [_|H]; [reflexivity|].
    exfalso. lra.
  - pose proof (sum_queue_nonneg _ Hq) as Hs.
    destruct (Rgt_dec cur window_size) as [_|H]; [|exfalso; lra].
    apply IH. lra.
Qed.

(** X5. With a negative [window_size] the loop of [update_window_queue]
    cannot stop: durations that are not negative never add up to a sum below
    the window, every entry is popped, and the next [get] waits for ever on
    the empty queue. *)
Theorem negative_window_blocks (window_queue : list R)
    (cur_window firing_time window_size : R) :
  Forall (fun x => 0 <= x) window_queue ->
  cur_window = sum_queue window_queue ->
  0 <= firing_time ->
  window_size < 0 ->
  update_window_queue window_queue cur_window firing_time window_size = None.
Proof.
  intros Hq Hcur Ht Hw. unfold update_window_queue.
  apply evict_window_negative_window; [exact Hw | |].
  - apply Forall_app. split; [exact Hq|].
    constructor; [exact Ht | constructor].
  - rewrite sum_queue_app. lra.
Qed.

Lemma negative_window_blocks_witness :
  update_window_queue [] 0 10 (-1) = None.
Proof.
  apply (negative_window_blocks [] 0 10 (-1)).
  - constructor.
  - reflexivity.
  - lra.
  - lra.
Defined.

(** ** The strike phase, property by property *)

Lemma strike_phase_Forall_gen (P : cell -> Prop) (self : RPOD) (fr : firing) :
  (forall c, P c -> P (reset_cell c)) ->
  (forall thr tp pn fc c, P c -> P (strike_face self (f_t fr) thr tp pn fc c)) ->
  forall cs : list cell, Forall P cs -> Forall P (strike_phase self fr cs).
Proof.
  intros Hreset Hstep cs Hcs. unfold strike_phase.
  assert (H0 : Forall P (map reset_cell cs)).
  { apply Forall_map. eapply Forall_impl; [|exact Hcs]. exact Hreset. }
  revert H0. generalize (map reset_cell cs) as xs.
  induction (f_thrusters fr) as [|n active IH]; intros xs Hxs; simpl.
  - exact Hxs.
  - apply IH. unfold fire_thruster. apply strike_faces_Forall; [|exact Hxs].
    intros fc c Hc. apply Hstep. exact Hc.
Qed.

(** A property of the nine array entries that the reset and every strike
    keep is kept by a whole firing. *)
Lemma process_firing_Forall_loads (P : cell -> Prop) (self : RPOD)
    (st st' : run_state) (fr : firing) :
  (forall c c', same_loads c c' -> P c -> P c') ->
  (forall c, P c -> P (reset_cell c)) ->
  (forall thr tp pn fc c, P c -> P (strike_face self (f_t fr) thr tp pn fc c)) ->
  process_firing self st fr = Some st' ->
  Forall P (cells st) -> Forall P (cells st').
Proof.
  intros Hsame Hreset Hstep H Hcells. unfold process_firing in H.
  pose proof (strike_phase_Forall_gen P self fr Hreset Hstep _ Hcells) as Hs.
  destruct (constraints_on (cfg self)).
  - destruct (update_window_queue (pressure_window_queue st) _ _ _)
      as [[[pq pw] pk]|]; [|discriminate].
    destruct (update_window_queue (heat_flux_window_queue st) _ _ _)
      as [[[hq hw] hk]|]; [|discriminate].
    destruct (constraint_pass _ _ _ _ _ _ _) as [[cs [failed file]]|] eqn:Ec;
      [|discriminate].
    injection H as <-. simpl. apply constraint_pass_cells in Ec.
    remember (strike_phase self fr (cells st)) as struck eqn:E. clear E.
    revert cs Ec. induction Hs as [|x xs Hx _ IH]; intros cs Ec; simpl in Ec.
    + inversion Ec; subst. constructor.
    + inversion Ec as [|? x' ? cs' Hev Hrest]; subst.
      constructor; [|apply IH; exact Hrest].
      apply evict_cell_same_loads in Hev.
      apply (Hsame (push_cell x)); [exact Hev|].
      apply (Hsame x); [repeat split | exact Hx].
  - injection H as <-. exact Hs.
Qed.

Lemma state_after_Forall_loads (P : cell -> Prop) (self : RPOD) :
  (forall c c', same_loads c c' -> P c -> P c') ->
  (forall c, P c -> P (reset_cell c)) ->
  (forall t thr tp pn fc c, P c -> P (strike_face self t thr tp pn fc c)) ->
  P new_cell ->
  forall (n : nat) (st : run_state),
    state_after self n = Some st -> Forall P (cells st).
Proof.
  intros Hsame Hreset Hstep Hnew n st. unfold state_after.
  assert (H0 : Forall P (cells (init_state self))).
  { simpl. apply Forall_map. apply Forall_forall. intros fc _. exact Hnew. }
  revert H0. generalize (init_state self) as s0.
  induction (firstn n (jfh self)) as [|fr rest IH]; intros s0 H0 H; simpl in H.
  - injection H as <-. exact H0.
  - destruct (process_firing self s0 fr) as [s1|] eqn:E; [|discriminate].
    apply (IH s1); [|exact H].
    eapply process_firing_Forall_loads; try eassumption.
    intros thr tp pn fc c. apply Hstep.
Qed.

(** A face that no active thruster strikes leaves the strike phase as the
    reset left it. *)
Lemma struck_cell_all_miss (self : RPOD) (fr : firing) (fc : face) (c : cell) :
  striking_thrusters self fr fc = 0%nat ->
  struck_cell self fr fc c = reset_cell c.
Proof.
  unfold striking_thrusters, struck_cell.
  generalize (reset_cell c) as x.
  induction (f_thrusters fr) as [|n active IH]; intros x H; simpl in *.
  - reflexivity.
  - destruct (plume_strike (cfg self) _ _ fc) eqn:E; simpl in H; [discriminate|].
    rewrite strike_face_miss by exact E. apply IH. exact H.
Qed.

(** X6. A face that no active thruster of a firing strikes comes out of the
    firing with its five per-firing entries at zero and its four accumulated
    entries as they were. *)
Theorem unstruck_face_is_reset (self : RPOD) (n : nat) (fr : firing)
    (st st' : run_state) (i : nat) (fc : face) :
  nth_error (jfh self) n = Some fr ->
  state_after self n = Some st ->
  state_after self (S n) = Some st' ->
  nth_error (target self) i = Some fc ->
  striking_thrusters self fr fc = 0%nat ->
  exists c c' : cell,
    nth_error (cells st) i = Some c
    /\ nth_error (cells st') i = Some c'
    /\ strikes c' = 0%nat /\ pressures c' = 0 /\ shear_stresses c' = 0
    /\ heat_flux c' = 0 /\ heat_flux_load c' = 0
    /\ cum_strikes c' = cum_strikes c
    /\ max_pressures c' = max_pressures c
    /\ max_shears c' = max_shears c
    /\ cum_heat_flux_load c' = cum_heat_flux_load c.
Proof.
  intros Hfr Hst Hst' Hf Hmiss.
  destruct (firing_step_cell self n fr st st' i fc Hfr Hst Hst' Hf)
    as (c & c' & Hc & Hc' & Hl).
  rewrite (struck_cell_all_miss self fr fc c Hmiss) in Hl.
  destruct Hl as (L1 & L2 & L3 & L4 & L5 & L6 & L7 & L8 & L9).
  exists c, c'. simpl in *. repeat split; assumption.
Qed.

Lemma unstruck_face_is_reset_witness :
  let s := scenario 100 [firing_at origin 10 [1%nat]; firing_at origin 10 []] in
  exists (st st' : run_state) (c c' : cell),
    state_after s 1 = Some st /\ state_after s 2 = Some st'
    /\ nth_error (cells st) 0 = Some c /\ nth_error (cells st') 0 = Some c'
    /\ pressures c' = 0 /\ max_pressures c' = max_pressures c.
Proof.
  cbv zeta.
  destruct (state_after_total
              (scenario 100 [firing_at origin 10 [1%nat]; firing_at origin 10 []]) 1)
    as [st Hst]; [simpl; lra | simpl; lra |].
  destruct (state_after_total
              (scenario 100 [firing_at origin 10 [1%nat]; firing_at origin 10 []]) 2)
    as [st' Hst']; [simpl; lra | simpl; lra |].
  destruct (unstruck_face_is_reset
              (scenario 100 [firing_at origin 10 [1%nat]; firing_at origin 10 []])
              1 (firing_at origin 10 []) st st' 0 axis_face
              eq_refl Hst Hst' eq_refl eq_refl)
    as (c & c' & Hc & Hc' & _ & Hp & _ & _ & _ & _ & Hm & _).
  exists st, st', c, c'. repeat split; assumption.
Defined.

(** A property of cells that holds after the reset and that every strike
    keeps holds after the strike phase of the face. *)
Lemma struck_cell_ind (self : RPOD) (fr : firing) (fc : face) (c : cell)
    (P : cell -> Prop) :
  P (reset_cell c) ->
  (forall (n : nat) (x : cell),
     In n (f_thrusters fr) -> P x ->
     P (strike_face self (f_t fr) (thruster_data (vv self) n)
          (thruster_pos_of fr (thruster_data (vv self) n))
          (plume_normal_of fr (thruster_data (vv self) n)) fc x)) ->
  P (struck_cell self fr fc c).
Proof.
  unfold struck_cell. generalize (reset_cell c) as x.
  induction (f_thrusters fr) as [|n active IH]; intros x H0 Hstep; simpl.
  - exact H0.
  - apply IH.
    + apply Hstep; [left; reflexivity | exact H0].
    + intros m y Hm Hy. apply Hstep; [right; exact Hm | exact Hy].
Qed.

Lemma struck_cell_heat (self : RPOD) (fr : firing) (fc : face) (c : cell) :
  heat_flux_load (struck_cell self fr fc c)
    = heat_flux (struck_cell self fr fc c) * f_t fr
  /\ cum_heat_flux_load (struck_cell self fr fc c)
    = cum_heat_flux_load c + heat_flux_load (struck_cell self fr fc c).
Proof.
  apply (struck_cell_ind self fr fc c
           (fun x => heat_flux_load x = heat_flux x * f_t fr
                     /\ cum_heat_flux_load x
                        = cum_heat_flux_load c + heat_flux_load x)).
  - simpl. split; lra.
  - intros n x _ [H1 H2]. unfold strike_face.
    destruct (plume_strike (cfg self) _ _ fc); [|split; assumption].
    destruct (pm_kinetics (cfg self)); simpl; split; try assumption; lra.
Qed.

(** X7. After every firing and for every face, the heat-flux load of the
    firing is the heat-flux rate of the firing times the firing's duration,
    and the cumulative heat-flux load has grown by exactly that load. *)
Theorem heat_flux_load_is_rate_times_duration (self : RPOD) (n : nat)
    (fr : firing) (st st' : run_state) (i : nat) (fc : face) :
  nth_error (jfh self) n = Some fr ->
  state_after self n = Some st ->
  state_after self (S n) = Some st' ->
  nth_error (target self) i = Some fc ->
  exists c c' : cell,
    nth_error (cells st) i = Some c
    /\ nth_error (cells st') i = Some c'
    /\ heat_flux_load c' = heat_flux c' * f_t fr
    /\ cum_heat_flux_load c' = cum_heat_flux_load c + heat_flux_load c'.
Proof.
  intros Hfr Hst Hst' Hf.
  destruct (firing_step_cell self n fr st st' i fc Hfr Hst Hst' Hf)
    as (c & c' & Hc & Hc' & Hl).
  destruct Hl as (_ & _ & _ & _ & _ & _ & L7 & L8 & L9).
  destruct (struck_cell_heat self fr fc c) as [H1 H2].
  exists c, c'. split; [exact Hc|]. split; [exact Hc'|].
  rewrite L7, L8, L9. split; assumption.
Qed.

Lemma heat_flux_load_is_rate_times_duration_witness :
  let s := scenario 100 [firing_at origin 10 [1%nat; 2%nat]] in
  exists (st' : run_state) (c' : cell),
    state_after s 1 = Some st'
    /\ nth_error (cells st') 0 = Some c'
    /\ heat_flux_load c' = heat_flux c' * 10.
Proof.
  cbv zeta.
  destruct (state_after_total
              (scenario 100 [firing_at origin 10 [1%nat; 2%nat]]) 1)
    as [st' Hst']; [simpl; lra | simpl; lra |].
  destruct (heat_flux_load_is_rate_times_duration
              (scenario 100 [firing_at origin 10 [1%nat; 2%nat]]) 0
              (firing_at origin 10 [1%nat; 2%nat])
              (init_state (scenario 100 [firing_at origin 10 [1%nat; 2%nat]]))
              st' 0 axis_face eq_refl eq_refl Hst' eq_refl)
    as (c & c' & _ & Hc' & H1 & _).
  exists st', c'. repeat split; assumption.
Defined.

Lemma struck_cell_sums (self : RPOD) (fr : firing) (fc : face) (c : cell) :
  pm_kinetics (cfg self) = KSimplified ->
  pressures (struck_cell self fr fc c)
    = sum_queue (map (fun n => get_pressure (plume_of self fr fc n))
                   (striking self fr fc))
  /\ shear_stresses (struck_cell self fr fc c)
    = sum_queue (map (fun n => Rabs (get_shear_pressure (plume_of self fr fc n)))
                   (striking self fr fc))
  /\ heat_flux (struck_cell self fr fc c)
    = sum_queue (map (fun n => get_heat_flux (plume_of self fr fc n))
                   (striking self fr fc)).
Proof.
  intros Hk. unfold struck_cell, striking.
  set (hit := fun n : nat =>
         let thr := thruster_data (vv self) n in
         plume_strike (cfg self) (thruster_pos_of fr thr) (plume_normal_of fr thr) fc).
  set (step := fun (x : cell) (n : nat) =>
         let thr := thruster_data (vv self) n in
         strike_face self (f_t fr) thr (thruster_pos_of fr thr)
           (plume_normal_of fr thr) fc x).
  assert (Hgen : forall (active : list nat) (x : cell),
            pressures (fold_left step active x)
              = pressures x
                + sum_queue (map (fun n => get_pressure (plume_of self fr fc n))
                               (filter hit active))
            /\ shear_stresses (fold_left step active x)
              = shear_stresses x
                + sum_queue (map (fun n => Rabs (get_shear_pressure
                                                   (plume_of self fr fc n)))
                               (filter hit active))
            /\ heat_flux (fold_left step active x)
              = heat_flux x
                + sum_queue (map (fun n => get_heat_flux (plume_of self fr fc n))
                               (filter hit active))).
  { induction active as [|n active IH]; intros x.
    - simpl. repeat split; lra.
    - change (fold_left step (n :: active) x)
        with (fold_left step active (step x n)).
      change (filter hit (n :: active))
        with (if hit n then n :: filter hit active else filter hit active).
      destruct (IH (step x n)) as (I1 & I2 & I3). rewrite I1, I2, I3.
      destruct (hit n) eqn:Hn.
      + assert (Hs : step x n
                     = record_loads (f_t fr) (plume_of self fr fc n)
                         (record_strike x)).
        { unfold step, strike_face. unfold hit in Hn. cbv zeta in Hn.
          cbv zeta. rewrite Hn, Hk. reflexivity. }
        rewrite Hs. simpl. repeat split; lra.
      + assert (Hs : step x n = x).
        { unfold step. apply strike_face_miss. exact Hn. }
        rewrite Hs. repeat split; reflexivity. }
  destruct (Hgen (f_thrusters fr) (reset_cell c)) as (G1 & G2 & G3).
  rewrite G1, G2, G3. simpl. repeat split; lra.
Qed.

Lemma struck_cell_no_kinetics (self : RPOD) (fr : firing) (fc : face) (c : cell) :
  pm_kinetics (cfg self) <> KSimplified ->
  pressures (struck_cell self fr fc c) = 0
  /\ shear_stresses (struck_cell self fr fc c) = 0
  /\ heat_flux (struck_cell self fr fc c) = 0
  /\ heat_flux_load (struck_cell self fr fc c) = 0.
Proof.
  intros Hk.
  apply (struck_cell_ind self fr fc c
           (fun x => pressures x = 0 /\ shear_stresses x = 0
                     /\ heat_flux x = 0 /\ heat_flux_load x = 0)).
  - repeat split.
  - intros n x _ H. unfold strike_face.
    destruct (plume_strike (cfg self) _ _ fc); [|exact H].
    destruct (pm_kinetics (cfg self)); [exact H | contradiction | exact H].
Qed.

(** X8. With the Simplified kinetics model, the pressure and the heat-flux
    rate that a firing leaves at a face are the sums of the model's values
    over the thrusters of the firing that strike the face, and the shear is
    the sum of the absolute values of the model's shear; with any other
    kinetics setting the three entries are zero. *)
Theorem loads_add_over_striking_thrusters (self : RPOD) (n : nat)
    (fr : firing) (st st' : run_state) (i : nat) (fc : face) :
  nth_error (jfh self) n = Some fr ->
  state_after self n = Some st ->
  state_after self (S n) = Some st' ->
  nth_error (target self) i = Some fc ->
  exists c' : cell,
    nth_error (cells st') i = Some c'
    /\ (pm_kinetics (cfg self) = KSimplified ->
        pressures c'
          = sum_queue (map (fun m => get_pressure (plume_of self fr fc m))
                         (striking self fr fc))
        /\ shear_stresses c'
          = sum_queue (map (fun m => Rabs (get_shear_pressure
                                             (plume_of self fr fc m)))
                         (striking self fr fc))
        /\ heat_flux c'
          = sum_queue (map (fun m => get_heat_flux (plume_of self fr fc m))
                         (striking self fr fc)))
    /\ (pm_kinetics (cfg self) <> KSimplified ->
        pressures c' = 0 /\ shear_stresses c' = 0 /\ heat_flux c' = 0).
Proof.
  intros Hfr Hst Hst' Hf.
  destruct (firing_step_cell self n fr st st' i fc Hfr Hst Hst' Hf)
    as (c & c' & Hc & Hc' & Hl).
  destruct Hl as (_ & _ & L3 & _ & L5 & _ & L7 & _ & _).
  exists c'. split; [exact Hc'|]. rewrite L3, L5, L7. split.
  - apply struck_cell_sums.
  - intros Hk. destruct (struck_cell_no_kinetics self fr fc c Hk)
      as (H1 & H2 & H3 & _). repeat split; assumption.
Qed.

Lemma loads_add_over_striking_thrusters_witness :
  let s := scenario 100 [firing_at origin 10 [1%nat; 2%nat]] in
  exists (st' : run_state) (c' : cell),
    state_after s 1 = Some st'
    /\ nth_error (cells st') 0 = Some c'
    /\ pressures c' = 5 + (5 + 0).
Proof.
  cbv zeta.
  destruct (state_after_total
              (scenario 100 [firing_at origin 10 [1%nat; 2%nat]]) 1)
    as [st' Hst']; [simpl; lra | simpl; lra |].
  destruct (loads_add_over_striking_thrusters
              (scenario 100 [firing_at origin 10 [1%nat; 2%nat]]) 0
              (firing_at origin 10 [1%nat; 2%nat])
              (init_state (scenario 100 [firing_at origin 10 [1%nat; 2%nat]]))
              st' 0 axis_face eq_refl eq_refl Hst' eq_refl)
    as (c' & Hc' & Hsum & _).
  destruct (Hsum eq_refl) as (Hp & _).
  exists st', c'. split; [exact Hst'|]. split; [exact Hc'|].
  rewrite Hp. unfold striking. simpl f_thrusters. simpl thruster_data.
  simpl filter. rewrite !axis_thruster_pos, !axis_plume_normal.
  change (cfg (scenario 100 [firing_at origin 10 [1%nat; 2%nat]]))
    with (scenario_config 100).
  rewrite axis_strike. reflexivity.
Defined.

(** ** Running maxima *)

Lemma state_after_max_nonneg (self : RPOD) (n : nat) (st : run_state) :
  state_after self n = Some st ->
  Forall (fun c => 0 <= max_pressures c /\ 0 <= max_shears c) (cells st).
Proof.
  apply (state_after_Forall_loads
           (fun c => 0 <= max_pressures c /\ 0 <= max_shears c)).
  - intros c c' (_ & _ & _ & L4 & _ & L6 & _) [H1 H2]. rewrite L4, L6.
    split; assumption.
  - intros c H. exact H.
  - intros t thr tp pn fc c [H1 H2]. unfold strike_face.
    destruct (plume_strike (cfg self) tp pn fc); [|split; assumption].
    destruct (pm_kinetics (cfg self)); simpl; try (split; assumption).
    split; destruct (Rgt_dec _ _); lra.
  - simpl. split; lra.
Qed.

Lemma struck_cell_max (self : RPOD) (fr : firing) (fc : face) (c : cell) :
  0 <= max_pressures c -> 0 <= max_shears c ->
  let s := struck_cell self fr fc c in
  pressures s <= max_pressures s
  /\ shear_stresses s <= max_shears s
  /\ max_shears s = Rmax (max_shears c) (shear_stresses s)
  /\ (pressure_nonneg self ->
      max_pressures s = Rmax (max_pressures c) (pressures s)).
Proof.
  intros Hp Hs. cbv zeta.
  assert (Hshear :
            (fun x => pressures x <= max_pressures x
                      /\ 0 <= shear_stresses x
                      /\ max_shears x = Rmax (max_shears c) (shear_stresses x))
              (struck_cell self fr fc c)).
  { apply struck_cell_ind.
    - simpl. split; [lra|]. split; [lra|].
      unfold Rmax. destruct (Rle_dec (max_shears c) 0); lra.
    - intros n x _ (H1 & H2 & H3). unfold strike_face.
      destruct (plume_strike (cfg self) _ _ fc); [|repeat split; assumption].
      destruct (pm_kinetics (cfg self)); simpl; try (repeat split; assumption).
      match goal with
      | |- context [Rabs ?v] => pose proof (Rabs_pos v) as Ha; set (a := Rabs v) in *
      end.
      split; [destruct (Rgt_dec _ _); lra|]. split; [lra|].
      rewrite H3. unfold Rmax.
      repeat (destruct (Rle_dec _ _)); destruct (Rgt_dec _ _); lra. }
  destruct Hshear as (H1 & H2 & H3).
  split; [exact H1|]. split; [rewrite H3; apply Rmax_r|]. split; [exact H3|].
  intros Hk.
  assert (Hpress :
            (fun x => 0 <= pressures x
                      /\ max_pressures x = Rmax (max_pressures c) (pressures x))
              (struck_cell self fr fc c)).
  { apply struck_cell_ind.
    - simpl. split; [lra|].
      unfold Rmax. destruct (Rle_dec (max_pressures c) 0); lra.
    - intros n x _ (G1 & G2). unfold strike_face.
      destruct (plume_strike (cfg self) _ _ fc); [|split; assumption].
      destruct (pm_kinetics (cfg self)); simpl; try (split; assumption).
      match goal with
      | |- context [SimplifiedGasKinetics self ?d ?th ?m ?tw ?sg] =>
          pose proof (Hk d th m tw sg) as Hg;
          set (sp := SimplifiedGasKinetics self d th m tw sg) in *
      end.
      split; [lra|]. rewrite G2. unfold Rmax.
      repeat (destruct (Rle_dec _ _)); destruct (Rgt_dec _ _); lra. }
  apply Hpress.
Qed.

(** X9. After every firing and for every face, the pressure and the shear of
    the firing do not exceed the running maxima, and the running maximum of
    the shear is the larger of the previous maximum and the summed shear of
    the firing.  When the kinetics model returns no negative pressure, the
    same holds of the pressure: the maximum is compared with the sum over the
    striking thrusters, not with each thruster's own value. *)
Theorem running_maxima_follow_firing_totals (self : RPOD) (n : nat)
    (fr : firing) (st st' : run_state) (i : nat) (fc : face) :
  nth_error (jfh self) n = Some fr ->
  state_after self n = Some st ->
  state_after self (S n) = Some st' ->
  nth_error (target self) i = Some fc ->
  exists c c' : cell,
    nth_error (cells st) i = Some c
    /\ nth_error (cells st') i = Some c'
    /\ pressures c' <= max_pressures c'
    /\ shear_stresses c' <= max_shears c'
    /\ max_shears c' = Rmax (max_shears c) (shear_stresses c')
    /\ (pressure_nonneg self ->
        max_pressures c' = Rmax (max_pressures c) (pressures c')).
Proof.
  intros Hfr Hst Hst' Hf.
  destruct (firing_step_cell self n fr st st' i fc Hfr Hst Hst' Hf)
    as (c & c' & Hc & Hc' & Hl).
  destruct Hl as (_ & _ & L3 & L4 & L5 & L6 & _).
  pose proof (state_after_max_nonneg self n st Hst) as Hnn.
  rewrite Forall_forall in Hnn.
  destruct (Hnn c (nth_error_In _ _ Hc)) as [Hp Hs].
  destruct (struck_cell_max self fr fc c Hp Hs) as (M1 & M2 & M3 & M4).
  exists c, c'. split; [exact Hc|]. split; [exact Hc'|].
  rewrite L3, L4, L5, L6. repeat split; assumption.
Qed.

Lemma running_maxima_follow_firing_totals_witness :
  let s := scenario 100 [firing_at origin 10 [1%nat; 2%nat]] in
  exists (st' : run_state) (c' : cell),
    state_after s 1 = Some st'
    /\ nth_error (cells st') 0 = Some c'
    /\ pressures c' <= max_pressures c'
    /\ max_pressures c' = Rmax 0 (pressures c').
Proof.
  cbv zeta.
  destruct (state_after_total
              (scenario 100 [firing_at origin 10 [1%nat; 2%nat]]) 1)
    as [st' Hst']; [simpl; lra | simpl; lra |].
  destruct (running_maxima_follow_firing_totals
              (scenario 100 [firing_at origin 10 [1%nat; 2%nat]]) 0
              (firing_at origin 10 [1%nat; 2%nat])
              (init_state (scenario 100 [firing_at origin 10 [1%nat; 2%nat]]))
              st' 0 axis_face eq_refl eq_refl Hst' eq_refl)
    as (c & c' & Hc & Hc' & H1 & _ & _ & H4).
  simpl in Hc. injection Hc as <-.
  exists st', c'. split; [exact Hst'|]. split; [exact Hc'|].
  split; [exact H1|]. apply H4. intros d th m tw sg. simpl. lra.
Defined.

(** ** Kinetics switched off *)

Lemma no_loads_strike_face (self : RPOD) (t : R) (thr : thruster)
    (tp pn : vec) (fc : face) (c : cell) :
  pm_kinetics (cfg self) = KNone ->
  no_loads c -> no_loads (strike_face self t thr tp pn fc c).
Proof.
  intros Hk H. unfold strike_face.
  destruct (plume_strike (cfg self) tp pn fc); [|exact H].
  rewrite Hk. exact H.
Qed.

Lemma replay_strike_only (self : RPOD) (firings : list firing) :
  pm_kinetics (cfg self) = KNone ->
  forall st : run_state,
    Forall no_loads (cells st) ->
    exists st' : run_state,
      replay self firings st = Some st'
      /\ Forall no_loads (cells st')
      /\ pressure_window_queue st' = pressure_window_queue st
      /\ heat_flux_window_queue st' = heat_flux_window_queue st
      /\ failed_constraints st' = failed_constraints st
      /\ constraint_file st' = constraint_file st.
Proof.
  intros Hk. induction firings as [|fr rest IH]; intros st Hst; simpl.
  - exists st. repeat split. exact Hst.
  - unfold process_firing, constraints_on. rewrite Hk.
    match goal with
    | |- context [replay self rest ?s] => destruct (IH s) as (st' & Hr & Hl & H1 & H2 & H3 & H4)
    end.
    { simpl. apply strike_phase_Forall_gen; [| |exact Hst].
      - intros c H. unfold no_loads in *. simpl. tauto.
      - intros thr tp pn fc c. apply no_loads_strike_face. exact Hk. }
    exists st'. simpl in *. repeat split; assumption.
Qed.

(** X10. With [pm.kinetics] set to None the run tracks strikes only.  It
    finishes whatever the window sizes are, since no window is ever updated;
    it writes no report line; and it never records a load: the load arrays
    and the queues, which the source does not create in this mode, keep in
    the model their initial zeros and stay empty. *)
Theorem kinetics_none_tracks_strikes_only (self : RPOD) :
  pm_kinetics (cfg self) = KNone ->
  exists st : run_state,
    jfh_plume_strikes self = Some (st, [])
    /\ Forall no_loads (cells st)
    /\ pressure_window_queue st = []
    /\ heat_flux_window_queue st = []
    /\ failed_constraints st = false.
Proof.
  intros Hk. unfold jfh_plume_strikes.
  destruct (replay_strike_only self (jfh self) Hk (init_state self))
    as (st & Hr & Hl & H1 & H2 & H3 & H4).
  { simpl. apply Forall_map. apply Forall_forall. intros fc _.
    unfold no_loads. simpl. repeat split. }
  exists st. rewrite Hr. unfold close_report, constraints_on. rewrite Hk.
  simpl in H4. rewrite H4. repeat split; assumption.
Qed.

Lemma kinetics_none_tracks_strikes_only_witness :
  exists st : run_state,
    jfh_plume_strikes (strike_only_scenario [firing_at origin 10 [1%nat]])
      = Some (st, [])
    /\ Forall no_loads (cells st).
Proof.
  destruct (kinetics_none_tracks_strikes_only
              (strike_only_scenario [firing_at origin 10 [1%nat]]) eq_refl)
    as (st & Hrun & Hl & _).
  exists st. split; assumption.
Defined.

(** ** A firing longer than the pressure window *)

Lemma update_window_queue_suffix (q : list R) (cur t window_size : R)
    (q' : list R) (s : R) (k : nat) :
  update_window_queue q cur t window_size = Some (q', s, k) ->
  cur = sum_queue q ->
  q' = skipn k (q ++ [t]) /\ (k <= length q + 1)%nat /\ s = sum_queue q'.
Proof.
  unfold update_window_queue. intros Hev Hcur.
  destruct (evict_window_sound _ _ _ _ _ _ _ Hev) as (n & Hk & Hn & Hq & Hs).
  { rewrite sum_queue_app. lra. }
  simpl in Hk. subst k. rewrite length_app in Hn. simpl in Hn.
  repeat split; assumption.
Qed.

Lemma process_firing_timelines_nonneg (self : RPOD) (st st' : run_state)
    (fr : firing) :
  0 <= f_t fr ->
  window_invariant st ->
  timelines_nonneg st ->
  process_firing self st fr = Some st' ->
  timelines_nonneg st'.
Proof.
  intros Ht [[Htp Hth] _] [Hp Hh] H. unfold process_firing in H.
  destruct (constraints_on (cfg self)).
  - destruct (update_window_queue (pressure_window_queue st) _ _ _)
      as [[[pq pw] pk]|] eqn:Ep; [|discriminate].
    destruct (update_window_queue (heat_flux_window_queue st) _ _ _)
      as [[[hq hw] hk]|] eqn:Eh; [|discriminate].
    destruct (constraint_pass _ _ _ _ _ _ _) as [[cs [failed file]]|];
      [|discriminate].
    injection H as <-.
    apply update_window_queue_suffix in Ep as (Hpq & _); [|exact Htp].
    apply update_window_queue_suffix in Eh as (Hhq & _); [|exact Hth].
    split; simpl; [rewrite Hpq | rewrite Hhq]; apply Forall_skipn;
      apply Forall_app; (split; [assumption | constructor; [exact Ht | constructor]]).
  - injection H as <-. split; assumption.
Qed.

Lemma replay_timelines_nonneg (self : RPOD) (firings : list firing) :
  Forall (fun f => 0 <= f_t f) firings ->
  forall st st' : run_state,
    window_invariant st ->
    timelines_nonneg st ->
    replay self firings st = Some st' ->
    timelines_nonneg st'.
Proof.
  induction 1 as [|fr rest Hfr _ IH]; intros st st' Hinv Hnn H; simpl in H.
  - injection H as <-. exact Hnn.
  - destruct (process_firing self st fr) as [st1|] eqn:E; [|discriminate].
    apply (IH st1 st'); [| |exact H].
    + eapply process_firing_inv; eassumption.
    + eapply process_firing_timelines_nonneg; eassumption.
Qed.

Lemma state_after_timelines_nonneg (self : RPOD) (n : nat) (st : run_state) :
  Forall (fun f => 0 <= f_t f) (firstn n (jfh self)) ->
  state_after self n = Some st ->
  timelines_nonneg st.
Proof.
  intros Hd H. unfold state_after in H.
  eapply replay_timelines_nonneg; [exact Hd | | | exact H].
  - apply init_state_invariant.
  - split; constructor.
Qed.

(** X11. A firing that lasts longer than the pressure window empties the
    pressure windows.  In a run with constraint checking on and durations
    that are not negative, after a firing whose duration exceeds
    [normal_pressure_window_size] the pressure timeline and the pressure
    queue of every face are empty and every pressure window sum is zero: the
    pressure of that very firing is evicted before the window threshold is
    tested. *)
Theorem long_firing_empties_pressure_windows (self : RPOD) (n : nat)
    (fr : firing) (st st' : run_state) :
  constraints_on (cfg self) = true ->
  Forall (fun f => 0 <= f_t f) (firstn n (jfh self)) ->
  0 <= tv_normal_pressure_window_size (cfg self) ->
  tv_normal_pressure_window_size (cfg self) < f_t fr ->
  nth_error (jfh self) n = Some fr ->
  state_after self n = Some st ->
  state_after self (S n) = Some st' ->
  pressure_window_queue st' = []
  /\ Forall (fun c => pressure_queue c = [] /\ pressure_window_sum c = 0)
       (cells st').
Proof.
  intros Hon Hd Hw Hlong Hfr Hst Hst'.
  pose proof (state_after_invariant self n st Hst) as Hinv.
  pose proof (state_after_invariant self (S n) st' Hst') as Hinv'.
  pose proof (state_after_timelines_nonneg self n st Hd Hst) as [Hnn _].
  rewrite (state_after_S self n fr Hfr), Hst in Hst'.
  assert (Hq : pressure_window_queue st' = []).
  { unfold process_firing in Hst'. rewrite Hon in Hst'.
    destruct Hinv as [[Htp _] _].
    rewrite (long_firing_clears_timeline _ _ _ _ Hnn Htp Hw Hlong) in Hst'.
    destruct (update_window_queue (heat_flux_window_queue st) _ _ _)
      as [[[hq hw] hk]|]; [|discriminate].
    destruct (constraint_pass _ _ _ _ _ _ _) as [[cs [failed file]]|];
      [|discriminate].
    injection Hst' as <-. reflexivity. }
  split; [exact Hq|].
  destruct Hinv' as [_ Hcells]. rewrite Hq in Hcells.
  eapply Forall_impl; [|exact Hcells].
  intros c ([Hs _] & Hlen & _). simpl in Hlen.
  apply length_zero_iff_nil in Hlen. rewrite Hs, Hlen. split; reflexivity.
Qed.

Lemma long_firing_empties_pressure_windows_witness :
  let s := scenario 100 [firing_at origin 20 [1%nat]] in
  exists st' : run_state,
    state_after s 1 = Some st'
    /\ Forall (fun c => pressure_queue c = [] /\ pressure_window_sum c = 0)
         (cells st').
Proof.
  cbv zeta.
  destruct (state_after_total (scenario 100 [firing_at origin 20 [1%nat]]) 1)
    as [st' Hst']; [simpl; lra | simpl; lra |].
  exists st'. split; [exact Hst'|].
  apply (long_firing_empties_pressure_windows
           (scenario 100 [firing_at origin 20 [1%nat]]) 0
           (firing_at origin 20 [1%nat])
           (init_state (scenario 100 [firing_at origin 20 [1%nat]])) st').
  - reflexivity.
  - constructor.
  - simpl. lra.
  - simpl. lra.
  - reflexivity.
  - reflexivity.
  - exact Hst'.
Defined.

(** ** What the sliding windows hold *)


Lemma skipn_app_short (A : Type) (k : nat) (l1 l2 : list A) :
  (k <= length l1)%nat -> skipn k (l1 ++ l2) = skipn k l1 ++ l2.
Proof.
  intros Hk. rewrite skipn_app.
  assert (Hz : (k - length l1 = 0)%nat) by lia. rewrite Hz. reflexivity.
Qed.





Lemma evict_cell_pressure_queue (pk hk : nat) (x x' : cell) :
  evict_cell pk hk x = Some x' ->
  pressure_queue x <> [] ->
  pressure_queue x' = skipn pk (pressure_queue x).
Proof.
  unfold evict_cell. intros H Hne.
  destruct (pressure_queue x) as [|p0 q0] eqn:Eq; [contradiction|].
  simpl queue_empty in H. simpl negb in H. cbv iota in H.
  destruct (update_parameter_queue (p0 :: q0) (pressure_window_sum x) pk)
    as [[pq' ps']|] eqn:Eup; simpl in H; [|discriminate].
  apply update_parameter_queue_sound in Eup as (_ & Hq & _).
  destruct (_ && _).
  - destruct (update_parameter_queue _ _ hk) as [w|]; simpl in H; [|discriminate].
    injection H as <-. simpl. exact Hq.
  - injection H as <-. simpl. exact Hq.
Qed.

(** One firing, seen at the pressure timeline and at the pressure queue of
    one face: both get one entry and lose the same number of oldest
    entries. *)
Lemma process_firing_pressure_queue (self : RPOD) (st st' : run_state)
    (fr : firing) (i : nat) (fc : face) (c : cell) :
  constraints_on (cfg self) = true ->
  window_invariant st ->
  process_firing self st fr = Some st' ->
  nth_error (target self) i = Some fc ->
  nth_error (cells st) i = Some c ->
  exists (c' : cell) (pk : nat),
    nth_error (cells st') i = Some c'
    /\ (pk <= length (pressure_window_queue st) + 1)%nat
    /\ pressure_window_queue st'
       = skipn pk (pressure_window_queue st ++ [f_t fr])
    /\ pressure_queue c' = skipn pk (pressure_queue c ++ [pressures c']).
Proof.
  intros Hon [[Htp _] _] H Hf Hc. unfold process_firing in H.
  rewrite Hon in H.
  pose proof (strike_phase_nth self fr (cells st) i fc c Hf Hc) as Hs.
  destruct (update_window_queue (pressure_window_queue st) _ _ _)
    as [[[pq pw] pk]|] eqn:Ep; [|discriminate].
  destruct (update_window_queue (heat_flux_window_queue st) _ _ _)
    as [[[hq hw] hk]|] eqn:Eh; [|discriminate].
  destruct (constraint_pass _ _ _ _ _ _ _) as [[cs [failed file]]|] eqn:Ec;
    [|discriminate].
  injection H as <-. simpl.
  apply update_window_queue_suffix in Ep as (Hpq & Hpk & _); [|exact Htp].
  apply constraint_pass_cells in Ec.
  destruct (Forall2_nth_error _ _ _ _ _ Ec i
              (push_cell (struck_cell self fr fc c))) as (c' & Hc' & Hev).
  { rewrite nth_error_map, Hs. reflexivity. }
  exists c', pk. split; [exact Hc'|]. split; [exact Hpk|].
  split; [exact Hpq|].
  destruct (evict_cell_same_loads _ _ _ _ Hev) as (_ & _ & Hpr & _).
  rewrite (evict_cell_pressure_queue _ _ _ _ Hev).
  - simpl pressure_queue. simpl pressures in Hpr. rewrite Hpr.
    destruct (struck_cell_same_windows self fr fc c) as (Hq & _).
    rewrite Hq. reflexivity.
  - simpl. intros E. apply (f_equal (@length R)) in E.
    rewrite length_app in E. simpl in E. lia.
Qed.

Lemma pressure_history_length (self : RPOD) (n i : nat) :
  length (pressure_history self n i) = n.
Proof.
  unfold pressure_history. rewrite length_map, length_seq. reflexivity.
Qed.

Lemma pressure_history_S (self : RPOD) (n i : nat) :
  pressure_history self (S n) i
    = pressure_history self n i ++ [pressure_at self (S n) i].
Proof.
  unfold pressure_history. rewrite seq_S, map_app. reflexivity.
Qed.

Lemma state_after_pressure_queue (self : RPOD) (n : nat) :
  constraints_on (cfg self) = true ->
  (n <= length (jfh self))%nat ->
  forall st : run_state,
    state_after self n = Some st ->
    (length (pressure_window_queue st) <= n)%nat
    /\ forall (i : nat) (c : cell),
         nth_error (cells st) i = Some c ->
         pressure_queue c
           = skipn (n - length (pressure_window_queue st))
               (pressure_history self n i).
Proof.
  intros Hon. induction n as [|n IH]; intros Hn st Hst.
  - unfold state_after in Hst. simpl in Hst. injection Hst as <-.
    simpl. split; [lia|]. intros i c Hc.
    rewrite nth_error_map in Hc.
    destruct (nth_error (target self) i); [|discriminate].
    injection Hc as <-. reflexivity.
  - destruct (nth_error (jfh self) n) as [fr|] eqn:Efr;
      [|apply nth_error_None in Efr; lia].
    pose proof Hst as Hst'.
    rewrite (state_after_S self n fr Efr) in Hst.
    destruct (state_after self n) as [st0|] eqn:E0; [|discriminate].
    destruct (IH ltac:(lia) st0 eq_refl) as [Hlen Hcells].
    pose proof (state_after_invariant self n st0 E0) as Hinv.
    assert (Hlen' : exists pk : nat,
               (pk <= length (pressure_window_queue st0) + 1)%nat
               /\ pressure_window_queue st
                  = skipn pk (pressure_window_queue st0 ++ [f_t fr])).
    { destruct Hinv as [[Htp _] _].
      unfold process_firing in Hst. rewrite Hon in Hst.
      destruct (update_window_queue (pressure_window_queue st0) _ _ _)
        as [[[pq pw] pk]|] eqn:Ep; [|discriminate].
      destruct (update_window_queue (heat_flux_window_queue st0) _ _ _)
        as [[[hq hw] hk]|]; [|discriminate].
      destruct (constraint_pass _ _ _ _ _ _ _) as [[cs [failed file]]|];
        [|discriminate].
      injection Hst as <-. simpl.
      apply update_window_queue_suffix in Ep as (Hpq & Hpk & _); [|exact Htp].
      exists pk. split; assumption. }
    split.
    { destruct Hlen' as (pk & Hpk & Hq). rewrite Hq, length_skipn, length_app.
      cbn [length]. lia. }
    intros i c' Hc'.
    assert (Hi : (i < length (target self))%nat).
    { rewrite <- (state_after_length self (S n) st Hst').
      apply nth_error_Some. rewrite Hc'. discriminate. }
    destruct (nth_error (target self) i) as [fc|] eqn:Efc;
      [|apply nth_error_None in Efc; lia].
    destruct (state_after_cell self n st0 i fc E0 Efc) as [c Hc].
    destruct (process_firing_pressure_queue self st0 st fr i fc c
                Hon Hinv Hst Efc Hc) as (c1 & pk & Hc1 & Hpk & Hq & Hcq).
    rewrite Hc' in Hc1. injection Hc1 as <-.
    rewrite pressure_history_S.
    assert (Hat : pressure_at self (S n) i = pressures c').
    { unfold pressure_at. rewrite Hst', Hc'. reflexivity. }
    rewrite Hat, Hcq, (Hcells i c Hc).
    rewrite <- skipn_app_short
      by (rewrite pressure_history_length; lia).
    rewrite skipn_skipn. f_equal.
    rewrite Hq, length_skipn, length_app. cbn [length]. lia.
Qed.

(** X13. The pressure window of a face holds that face's pressures of exactly
    the firings in the pressure timeline.  With constraint checking on, after
    [n] firings the pressure queue of face [i] is its pressure history
    without the first [n - len(pressure_window_queue)] firings, and
    [pressure_window_sums[i]] is the sum of those pressures. *)
Theorem pressure_window_holds_timeline_firings (self : RPOD) (n i : nat)
    (st : run_state) (c : cell) :
  constraints_on (cfg self) = true ->
  (n <= length (jfh self))%nat ->
  state_after self n = Some st ->
  nth_error (cells st) i = Some c ->
  pressure_queue c
    = skipn (n - length (pressure_window_queue st)) (pressure_history self n i)
  /\ pressure_window_sum c
     = sum_queue (skipn (n - length (pressure_window_queue st))
                    (pressure_history self n i)).
Proof.
  intros Hon Hn Hst Hc.
  destruct (state_after_pressure_queue self n Hon Hn st Hst) as [_ Hq].
  pose proof (Hq i c Hc) as Hqc. split; [exact Hqc|].
  rewrite <- Hqc.
  destruct (state_after_invariant self n st Hst) as [_ Hcells].
  rewrite Forall_forall in Hcells.
  destruct (Hcells c (nth_error_In _ _ Hc)) as ([Hs _] & _). exact Hs.
Qed.

Lemma pressure_window_holds_timeline_firings_witness :
  let s := scenario 100 [firing_at origin 10 [1%nat];
                         firing_at origin 10 [1%nat]] in
  exists (st : run_state) (c : cell),
    state_after s 2 = Some st
    /\ nth_error (cells st) 0 = Some c
    /\ pressure_queue c
       = skipn (2 - length (pressure_window_queue st)) (pressure_history s 2 0).
Proof.
  cbv zeta.
  destruct (state_after_total
              (scenario 100 [firing_at origin 10 [1%nat];
                             firing_at origin 10 [1%nat]]) 2)
    as [st Hst]; [simpl; lra | simpl; lra |].
  destruct (state_after_cell _ 2 st 0 axis_face Hst eq_refl) as [c Hc].
  exists st, c. split; [exact Hst|]. split; [exact Hc|].
  apply (pressure_window_holds_timeline_firings
           (scenario 100 [firing_at origin 10 [1%nat];
                          firing_at origin 10 [1%nat]]) 2 0 st c).
  - reflexivity.
  - simpl. lia.
  - exact Hst.
  - exact Hc.
Defined.

(** ** The strike geometry *)

Lemma norm_pos_of_nonzero (v : vec) : norm v <> 0 -> 0 < norm v.
Proof.
  intros H. unfold norm in *.
  pose proof (sqrt_pos (vx v ^ 2 + vy v ^ 2 + vz v ^ 2)). lra.
Qed.

Lemma acos_le_PI2 (x : R) : 0 <= x <= 1 -> acos x <= PI / 2.
Proof.
  intros Hx. destruct (Rle_dec (acos x) (PI / 2)) as [H|H]; [exact H|].
  exfalso. pose proof (acos_bound x) as [_ Hb]. pose proof PI_RGT_0 as Hpi.
  assert (Hc : cos (acos x) < 0) by (apply cos_lt_0; lra).
  rewrite cos_acos in Hc by lra. lra.
Qed.

Lemma theta_range (thruster_pos plume_normal : vec) (fc : face) (t : R) :
  theta thruster_pos plume_normal fc = Some t ->
  theta_offset - PI <= t <= theta_offset.
Proof.
  unfold theta, np_rsub, np_arccos. intros H.
  destruct (np_dot _ _) as [d|]; [|discriminate].
  destruct (Rle_dec (-1) d); [|discriminate].
  destruct (Rle_dec d 1); [|discriminate].
  injection H as <-. pose proof (acos_bound d). lra.
Qed.

Lemma plume_strike_needs_theta (c : config) (thruster_pos plume_normal : vec)
    (fc : face) :
  (forall t : R, theta thruster_pos plume_normal fc = Some t ->
                 plume_wedge_theta c <= t) ->
  plume_strike c thruster_pos plume_normal fc = false.
Proof.
  intros H. destruct (plume_strike c thruster_pos plume_normal fc) eqn:E;
    [|reflexivity].
  apply plume_strike_true_iff in E as (_ & (t & Ht & Hlt) & _).
  pose proof (H t Ht). lra.
Qed.

(** X14. The two ends of the wedge angle.  The angle [theta] the code
    computes lies between 3.14 - pi and 3.14.  So with [wedge_theta] at or
    below 3.14 - pi no face is ever struck, and with [wedge_theta] above 3.14
    the angle test lets every face through whose angle is a number. *)
Theorem wedge_theta_extremes (c : config) (thruster_pos plume_normal : vec)
    (fc : face) :
  (plume_wedge_theta c <= theta_offset - PI ->
   plume_strike c thruster_pos plume_normal fc = false)
  /\ (theta_offset < plume_wedge_theta c ->
      theta thruster_pos plume_normal fc <> None ->
      within_theta c thruster_pos plume_normal fc = true).
Proof.
  split.
  - intros Hw. apply plume_strike_needs_theta. intros t Ht.
    apply theta_range in Ht. lra.
  - intros Hw Hdef. unfold within_theta.
    destruct (theta thruster_pos plume_normal fc) as [t|] eqn:Et;
      [|contradiction].
    apply theta_range in Et. apply np_lt_true_iff. exists t.
    split; [reflexivity | lra].
Qed.

Lemma wedge_theta_extremes_witness :
  within_theta (Config 1 4 KSimplified true 300 1 0 0 0 0 0 15 15)
    origin (Vec 1 0 0) axis_face = true.
Proof.
  apply (wedge_theta_extremes
           (Config 1 4 KSimplified true 300 1 0 0 0 0 0 15 15)
           origin (Vec 1 0 0) axis_face).
  - unfold theta_offset. simpl. lra.
  - rewrite axis_theta. discriminate.
Defined.

(** X15. A face behind the nozzle plane is not struck.  When the vector from
    the face centroid to the thruster has a non-negative component along the
    plume axis, the angle is at least 3.14 - pi/2, so with [wedge_theta] at
    or below that value the face is never struck. *)
Theorem face_behind_thruster_not_struck (c : config)
    (thruster_pos plume_normal : vec) (fc : face) :
  0 <= dot (distance thruster_pos fc) plume_normal ->
  plume_wedge_theta c <= theta_offset - PI / 2 ->
  plume_strike c thruster_pos plume_normal fc = false.
Proof.
  intros Hdot Hw. apply plume_strike_needs_theta. intros t Ht.
  unfold theta, unit_distance, norm_distance, unit_plume_normal, np_divide in Ht.
  destruct (Req_dec_T (norm (distance thruster_pos fc)) 0) as [|Hd];
    [discriminate|].
  destruct (Req_dec_T (norm plume_normal) 0) as [|Hp]; [discriminate|].
  apply norm_pos_of_nonzero in Hd. apply norm_pos_of_nonzero in Hp.
  unfold np_dot, np_arccos, np_rsub in Ht.
  match type of Ht with
  | context [Rle_dec (-1) ?x] =>
      assert (Hx : 0 <= x);
      [| destruct (Rle_dec (-1) x); [|discriminate];
         destruct (Rle_dec x 1); [|discriminate] ]
  end.
  - unfold dot in *. cbn [vx vy vz] in *.
    set (d := distance thruster_pos fc) in *.
    set (n := norm d) in *. set (m := norm plume_normal) in *.
    replace (vx d / n * (vx plume_normal / m) + vy d / n * (vy plume_normal / m)
             + vz d / n * (vz plume_normal / m))
      with ((vx d * vx plume_normal + vy d * vy plume_normal
             + vz d * vz plume_normal) * (/ n * / m))
      by (field; split; lra).
    apply Rmult_le_pos; [exact Hdot|].
    apply Rmult_le_pos; left; apply Rinv_0_lt_compat; assumption.
  - injection Ht as <-.
    match goal with
    | |- context [acos ?x] =>
        assert (Ha : acos x <= PI / 2) by (apply acos_le_PI2; split; assumption)
    end.
    lra.
Qed.

Lemma face_behind_thruster_not_struck_witness :
  plume_strike (scenario_config 100) (Vec 1 0 0) (Vec 1 0 0) axis_face = false.
Proof.
  apply (face_behind_thruster_not_struck (scenario_config 100)
           (Vec 1 0 0) (Vec 1 0 0) axis_face).
  - unfold distance. rewrite axis_centroid. unfold dot, vsub. simpl. lra.
  - pose proof PI_4. unfold theta_offset. simpl. lra.
Defined.

Lemma norm_vscale (k : R) (v : vec) : 0 <= k -> norm (vscale k v) = k * norm v.
Proof.
  intros Hk. unfold norm, vscale. cbn [vx vy vz].
  replace ((k * vx v) ^ 2 + (k * vy v) ^ 2 + (k * vz v) ^ 2)
    with ((k * k) * (vx v ^ 2 + vy v ^ 2 + vz v ^ 2)) by ring.
  rewrite sqrt_mult by (try apply sum_squares_nonneg; nra).
  rewrite sqrt_square by exact Hk. reflexivity.
Qed.

Lemma unit_plume_normal_vscale (k : R) (v : vec) :
  0 < k -> unit_plume_normal (vscale k v) = unit_plume_normal v.
Proof.
  intros Hk. unfold unit_plume_normal, np_divide.
  rewrite norm_vscale by lra.
  destruct (Req_dec_T (norm v) 0) as [Hz|Hnz].
  - rewrite Hz, Rmult_0_r.
    destruct (Req_dec_T 0 0) as [_|H]; [reflexivity | contradiction].
  - destruct (Req_dec_T (k * norm v) 0) as [Hz|_]; [nra|].
    unfold vscale. cbn [vx vy vz]. f_equal. f_equal; field; split; lra.
Qed.

Lemma distance_translate (d thruster_pos : vec) (fc : face) :
  distance (vadd thruster_pos d) (translate_face d fc)
    = distance thruster_pos fc.
Proof.
  unfold distance, centroid, translate_face, mean3, vsub, vadd.
  cbn [vx vy vz vertex0 vertex1 vertex2]. f_equal; field.
Qed.

(** X16. The strike test sees only the relative geometry.  Scaling the plume
    axis by a positive factor does not change the outcome, and neither does
    moving the thruster and the three vertices of the face by one and the
    same offset. *)
Theorem plume_strike_relative_geometry (c : config)
    (thruster_pos plume_normal : vec) (fc : face) :
  (forall k : R, 0 < k ->
     plume_strike c thruster_pos (vscale k plume_normal) fc
       = plume_strike c thruster_pos plume_normal fc)
  /\ (forall d : vec,
        plume_strike c (vadd thruster_pos d) plume_normal (translate_face d fc)
          = plume_strike c thruster_pos plume_normal fc).
Proof.
  split.
  - intros k Hk.
    unfold plume_strike, within_theta, facing_thruster, theta, surface_dot_plume.
    rewrite (unit_plume_normal_vscale k plume_normal Hk). reflexivity.
  - intros d.
    unfold plume_strike, within_distance, within_theta, facing_thruster, theta,
      surface_dot_plume, unit_distance, norm_distance.
    rewrite distance_translate. reflexivity.
Qed.

Lemma plume_strike_relative_geometry_witness :
  plume_strike (scenario_config 100) origin (vscale 2 (Vec 1 0 0)) axis_face
    = plume_strike (scenario_config 100) origin (Vec 1 0 0) axis_face.
Proof.
  apply (proj1 (plume_strike_relative_geometry (scenario_config 100) origin
                  (Vec 1 0 0) axis_face) 2).
  lra.
Defined.

(** * MissionPlanner.py *)

Import String.StringSyntax.
Local Delimit Scope string_scope with string.

Lemma isp_g_0_nonzero (isp : R) : isp <> 0 -> isp * MissionPlanner.g_0 <> 0.
Proof.
  intros H E. unfold MissionPlanner.g_0 in E. apply H. lra.
Qed.

Lemma exp_gt_1 (a : R) : 0 < a -> 1 < exp a.
Proof.
  intros Ha. assert (Hn : a <> 0) by lra. pose proof (exp_ineq1 a Hn). lra.
Qed.

(** X17. [calc_delta_mass] follows the rocket equation and composes: with a
    specific impulse that is not zero, the call multiplies the vehicle mass
    by exp(dv / (isp * g_0)), and two calls for [dv1] and [dv2] return
    propellant masses that add up to what one call for [dv1 + dv2] returns,
    and leave the same vehicle mass. *)
Theorem calc_delta_mass_composes (vv : MissionPlanner.vehicle)
    (dv1 dv2 isp : R) :
  isp <> 0 ->
  exists (dm1 dm2 : R) (vv1 vv2 : MissionPlanner.vehicle),
    MissionPlanner.calc_delta_mass vv dv1 isp
      = MissionPlanner.Returns (dm1, vv1)
    /\ MissionPlanner.calc_delta_mass vv1 dv2 isp
       = MissionPlanner.Returns (dm2, vv2)
    /\ MissionPlanner.calc_delta_mass vv (dv1 + dv2) isp
       = MissionPlanner.Returns (dm1 + dm2, vv2)
    /\ MissionPlanner.mass vv1
       = MissionPlanner.mass vv * exp (dv1 / (isp * MissionPlanner.g_0)).
Proof.
  intros Hisp. pose proof (isp_g_0_nonzero isp Hisp) as Hk.
  unfold MissionPlanner.calc_delta_mass.
  destruct (Req_dec_T (isp * MissionPlanner.g_0) 0) as [Hz|_]; [contradiction|].
  do 4 eexists. split; [reflexivity|]. split; [reflexivity|].
  set (k := isp * MissionPlanner.g_0) in *.
  replace ((dv1 + dv2) / k) with (dv1 / k + dv2 / k) by (field; exact Hk).
  rewrite exp_plus. cbn [MissionPlanner.mass MissionPlanner.set_mass].
  split; [|ring].
  f_equal. f_equal; [ring|].
  unfold MissionPlanner.set_mass.
  cbn [MissionPlanner.mass MissionPlanner.thrust MissionPlanner.isp
       MissionPlanner.height MissionPlanner.radius MissionPlanner.rcs_groups
       MissionPlanner.thruster_type MissionPlanner.thruster_metrics].
  f_equal. ring.
Qed.

Lemma calc_delta_mass_composes_witness :
  exists (dm : R) (vv' : MissionPlanner.vehicle),
    MissionPlanner.calc_delta_mass MissionPlanner.example_vehicle (1 + 2) 300
      = MissionPlanner.Returns (dm, vv').
Proof.
  assert (H300 : 300 <> 0) by lra.
  destruct (calc_delta_mass_composes MissionPlanner.example_vehicle 1 2 300 H300)
    as (dm1 & dm2 & vv1 & vv2 & _ & _ & H & _).
  exists (dm1 + dm2), vv2. exact H.
Defined.

(** X18. [calc_burn_time] is the propellant of [calc_delta_mass] over the
    mass flow, with the sign turned: for one vehicle and the same [dv] and
    [isp], burn time times thrust equals minus isp * g_0 * dm.  So for a
    positive [dv], [isp], mass and thrust the burn time returned is
    negative. *)
Theorem burn_time_is_minus_propellant_over_flow (vv : MissionPlanner.vehicle)
    (dv isp T : R) :
  isp <> 0 -> T <> 0 ->
  exists (t dm : R) (vv' : MissionPlanner.vehicle),
    MissionPlanner.calc_burn_time vv dv isp T = MissionPlanner.Returns t
    /\ MissionPlanner.calc_delta_mass vv dv isp
       = MissionPlanner.Returns (dm, vv')
    /\ t * T = - (isp * MissionPlanner.g_0 * dm)
    /\ (0 < dv -> 0 < isp -> 0 < MissionPlanner.mass vv -> 0 < T -> t < 0).
Proof.
  intros Hisp HT. pose proof (isp_g_0_nonzero isp Hisp) as Hk.
  unfold MissionPlanner.calc_burn_time, MissionPlanner.calc_delta_mass.
  destruct (Req_dec_T (isp * MissionPlanner.g_0) 0) as [Hz|_]; [contradiction|].
  destruct (Req_dec_T T 0) as [Hz|_]; [contradiction|].
  do 3 eexists. split; [reflexivity|]. split; [reflexivity|].
  set (k := isp * MissionPlanner.g_0) in *.
  split; [field; exact HT|].
  intros Hdv Hpos Hm Htp.
  assert (Hkpos : 0 < k).
  { unfold k, MissionPlanner.g_0. lra. }
  assert (Ha : 0 < dv / k) by (apply Rdiv_lt_0_compat; assumption).
  apply exp_gt_1 in Ha.
  assert (Hkm : 0 < k * MissionPlanner.mass vv)
    by (apply Rmult_lt_0_compat; assumption).
  assert (HK : k * MissionPlanner.mass vv * (1 - exp (dv / k)) < 0) by nra.
  assert (Hinv : 0 < / T) by (apply Rinv_0_lt_compat; exact Htp).
  unfold Rdiv. nra.
Qed.

Lemma burn_time_is_minus_propellant_over_flow_witness :
  exists t : R,
    MissionPlanner.calc_burn_time MissionPlanner.example_vehicle 1 300 100
      = MissionPlanner.Returns t
    /\ t < 0.
Proof.
  assert (H300 : 300 <> 0) by lra. assert (H100 : 100 <> 0) by lra.
  destruct (burn_time_is_minus_propellant_over_flow
              MissionPlanner.example_vehicle 1 300 100 H300 H100)
    as (t & dm & vv' & Ht & _ & _ & Hneg).
  exists t. split; [exact Ht|]. apply Hneg; simpl; lra.
Defined.

(** X19. What one JFH firing costs in [calc_total_delta_mass]: the velocity
    change of [calc_delta_v] for a burn of [dt] seconds, handed to
    [calc_delta_mass_v_e] with the same exhaust velocity and the same mass,
    gives back the propellant m_dot * dt, whatever the mass and the
    direction of propagation. *)
Theorem jfh_firing_propellant_is_m_dot_dt (vv : MissionPlanner.vehicle)
    (dt v_e m_dot : R) (forward_propagation : bool) :
  MissionPlanner.mass vv <> 0 ->
  v_e <> 0 ->
  0 < (m_dot * dt) / MissionPlanner.mass vv + 1 ->
  exists (dv : R) (vv' : MissionPlanner.vehicle),
    MissionPlanner.calc_delta_v dt v_e m_dot (MissionPlanner.mass vv)
      = MissionPlanner.Returns dv
    /\ MissionPlanner.calc_delta_mass_v_e vv dv v_e forward_propagation
       = MissionPlanner.Returns (m_dot * dt, vv')
    /\ MissionPlanner.mass vv'
       = if forward_propagation then MissionPlanner.mass vv - m_dot * dt
         else MissionPlanner.mass vv + m_dot * dt.
Proof.
  intros Hm Hv Hx.
  unfold MissionPlanner.calc_delta_v, MissionPlanner.calc_delta_mass_v_e.
  destruct (Req_dec_T (MissionPlanner.mass vv) 0) as [Hz|_]; [contradiction|].
  destruct (Rlt_dec 0 (m_dot * dt / MissionPlanner.mass vv + 1)) as [_|Hn];
    [|contradiction].
  destruct (Req_dec_T v_e 0) as [Hz|_]; [contradiction|].
  set (x := m_dot * dt / MissionPlanner.mass vv + 1) in *.
  assert (He : MissionPlanner.mass vv * (exp (v_e * ln x / v_e) - 1)
               = m_dot * dt).
  { replace (v_e * ln x / v_e) with (ln x) by (field; exact Hv).
    rewrite exp_ln by exact Hx. unfold x. field. exact Hm. }
  do 2 eexists. split; [reflexivity|]. rewrite He.
  split; [reflexivity|]. destruct forward_propagation; reflexivity.
Qed.

Lemma jfh_firing_propellant_is_m_dot_dt_witness :
  exists (dv : R) (vv' : MissionPlanner.vehicle),
    MissionPlanner.calc_delta_v 10 2000 (1 / 10) 14000
      = MissionPlanner.Returns dv
    /\ MissionPlanner.calc_delta_mass_v_e MissionPlanner.example_vehicle dv
         2000 true
       = MissionPlanner.Returns (1 / 10 * 10, vv').
Proof.
  assert (Hm : MissionPlanner.mass MissionPlanner.example_vehicle <> 0)
    by (simpl; lra).
  assert (Hv : 2000 <> 0) by lra.
  assert (Hx : 0 < (1 / 10 * 10)
                   / MissionPlanner.mass MissionPlanner.example_vehicle + 1)
    by (simpl; lra).
  destruct (jfh_firing_propellant_is_m_dot_dt MissionPlanner.example_vehicle
              10 2000 (1 / 10) true Hm Hv Hx) as (dv & vv' & H1 & H2 & _).
  exists dv, vv'. split; [exact H1 | exact H2].
Defined.

(** X20. Forward propagation does not undo back propagation.
    [calc_delta_mass_v_e] for one [dv] and [v_e], first backwards and then
    forwards, leaves the mass m * (1 - (exp(dv / v_e) - 1) ** 2): below the
    mass it started from whenever that mass is positive and [dv] is not
    zero. *)
Theorem back_then_forward_loses_mass (vv : MissionPlanner.vehicle)
    (dv v_e : R) :
  v_e <> 0 ->
  exists (dm1 dm2 : R) (vv1 vv2 : MissionPlanner.vehicle),
    MissionPlanner.calc_delta_mass_v_e vv dv v_e false
      = MissionPlanner.Returns (dm1, vv1)
    /\ MissionPlanner.calc_delta_mass_v_e vv1 dv v_e true
       = MissionPlanner.Returns (dm2, vv2)
    /\ MissionPlanner.mass vv2
       = MissionPlanner.mass vv * (1 - (exp (dv / v_e) - 1) ^ 2)
    /\ (0 < MissionPlanner.mass vv -> dv <> 0 ->
        MissionPlanner.mass vv2 < MissionPlanner.mass vv).
Proof.
  intros Hv. unfold MissionPlanner.calc_delta_mass_v_e.
  destruct (Req_dec_T v_e 0) as [Hz|_]; [contradiction|].
  do 4 eexists. split; [reflexivity|]. split; [reflexivity|].
  cbn [MissionPlanner.mass MissionPlanner.set_mass].
  split; [ring|].
  intros Hm Hdv.
  assert (Ha : dv / v_e <> 0).
  { intros E. apply Hdv.
    replace dv with (dv / v_e * v_e) by (field; exact Hv).
    rewrite E. ring. }
  assert (He : exp (dv / v_e) <> 1).
  { intros E. apply Ha. apply exp_inv. rewrite exp_0. exact E. }
  set (e := exp (dv / v_e)) in *.
  assert (Hsq : 0 < (e - 1) * (e - 1)).
  { destruct (Rtotal_order e 1) as [Hlt|[Heq|Hgt]]; [nra|contradiction|nra]. }
  nra.
Qed.

Lemma back_then_forward_loses_mass_witness :
  exists (dm1 dm2 : R) (vv1 vv2 : MissionPlanner.vehicle),
    MissionPlanner.calc_delta_mass_v_e MissionPlanner.example_vehicle 1 2000
      false = MissionPlanner.Returns (dm1, vv1)
    /\ MissionPlanner.calc_delta_mass_v_e vv1 1 2000 true
       = MissionPlanner.Returns (dm2, vv2)
    /\ MissionPlanner.mass vv2 < 14000.
Proof.
  assert (Hv : 2000 <> 0) by lra.
  destruct (back_then_forward_loses_mass MissionPlanner.example_vehicle 1 2000
              Hv) as (dm1 & dm2 & vv1 & vv2 & H1 & H2 & _ & Hlt).
  exists dm1, dm2, vv1, vv2. split; [exact H1|]. split; [exact H2|].
  apply Hlt; simpl; lra.
Defined.

(** X21. The propellant of a translation burn does not depend on the
    thrusters.  For a group that is set and not empty, and a thrust, mass and
    specific impulse that are not zero, [calc_trans_performance] returns the
    burn time |dv| * mass / (n * thrust), half of |dv| times that time as
    the distance, and the propellant |dv| * mass / isp, in which neither the
    number of thrusters nor their thrust appears. *)
Theorem calc_trans_performance_propellant (vv : MissionPlanner.vehicle)
    (groups : MissionPlanner.dict (list String.string))
    (motion : String.string) (names : list String.string) (dv : R) :
  MissionPlanner.rcs_groups vv = Some groups ->
  MissionPlanner.get groups motion = Some names ->
  names <> [] ->
  MissionPlanner.thrust vv <> 0 ->
  MissionPlanner.mass vv <> 0 ->
  MissionPlanner.isp vv <> 0 ->
  exists time distance propellant_used : R,
    MissionPlanner.calc_trans_performance vv motion dv
      = MissionPlanner.Returns (Some (time, distance, propellant_used))
    /\ time = Rabs dv * MissionPlanner.mass vv
              / (INR (length names) * MissionPlanner.thrust vv)
    /\ distance = Rabs dv * time / 2
    /\ propellant_used = Rabs dv * MissionPlanner.mass vv / MissionPlanner.isp vv.
Proof.
  intros Hg Hnames Hne Ht Hm Hi.
  assert (Hn : INR (length names) <> 0).
  { apply not_0_INR. destruct names; [contradiction | discriminate]. }
  unfold MissionPlanner.calc_trans_performance. rewrite Hg, Hnames.
  set (n := INR (length names)) in *.
  assert (Hacc : n * MissionPlanner.thrust vv / MissionPlanner.mass vv <> 0).
  { intros E.
    assert (Hz : n * MissionPlanner.thrust vv = 0).
    { replace (n * MissionPlanner.thrust vv)
        with (n * MissionPlanner.thrust vv / MissionPlanner.mass vv
              * MissionPlanner.mass vv) by (field; exact Hm).
      rewrite E. ring. }
    apply Rmult_integral in Hz as [Hz|Hz]; contradiction. }
  destruct (Req_dec_T (MissionPlanner.mass vv) 0) as [Hz|_]; [contradiction|].
  destruct (Req_dec_T (n * MissionPlanner.thrust vv / MissionPlanner.mass vv) 0)
    as [Hz|_]; [contradiction|].
  destruct (Req_dec_T (MissionPlanner.isp vv) 0) as [Hz|_]; [contradiction|].
  do 3 eexists. split; [reflexivity|].
  split; [field; repeat split; assumption|].
  split; [field; repeat split; assumption|].
  field. repeat split; assumption.
Qed.

Lemma calc_trans_performance_propellant_witness :
  exists time distance : R,
    MissionPlanner.calc_trans_performance MissionPlanner.example_vehicle
      "neg_x"%string (-3)
    = MissionPlanner.Returns (Some (time, distance, Rabs (-3) * 14000 / 300)).
Proof.
  destruct (calc_trans_performance_propellant MissionPlanner.example_vehicle
              [("neg_x"%string, ["T1"%string; "T2"%string]);
               ("pos_pitch"%string, ["T1"%string])]
              "neg_x"%string ["T1"%string; "T2"%string] (-3))
    as (time & distance & p & H & _ & _ & Hp).
  - reflexivity.
  - reflexivity.
  - discriminate.
  - simpl. lra.
  - simpl. lra.
  - simpl. lra.
  - exists time, distance. rewrite H, Hp. reflexivity.
Defined.

Lemma metric_sum_uniform (entry : MissionPlanner.thruster_metric -> R)
    (vv : MissionPlanner.vehicle) (ty : String.string)
    (m : MissionPlanner.thruster_metric) (names : list String.string) :
  Forall (fun name => MissionPlanner.get (MissionPlanner.thruster_type vv) name
                      = Some ty) names ->
  MissionPlanner.get (MissionPlanner.thruster_metrics vv) ty = Some m ->
  forall acc : R,
    MissionPlanner.metric_sum entry vv names acc
      = MissionPlanner.Returns (acc + INR (length names) * entry m).
Proof.
  intros Hall Hm. induction Hall as [|name names Hname _ IH]; intros acc.
  - simpl. f_equal. ring.
  - cbn [MissionPlanner.metric_sum]. rewrite Hname, Hm, IH.
    f_equal. cbn [length]. rewrite S_INR. ring.
Qed.

(** X22. The exhaust velocity of a group of one thruster type.  When every
    thruster of the group has the same type, [calc_thrust_sum] and
    [calc_m_dot_sum] return n times the thrust and n times the mass flow of
    that type; [calc_v_e] raises ZeroDivisionError for the empty group, and
    for a group that is not empty and a mass flow that is not zero it
    returns F / mdot of the type, whatever the size of the group. *)
Theorem calc_v_e_of_uniform_group (vv : MissionPlanner.vehicle)
    (groups : MissionPlanner.dict (list String.string))
    (group ty : String.string) (names : list String.string)
    (m : MissionPlanner.thruster_metric) :
  MissionPlanner.rcs_groups vv = Some groups ->
  MissionPlanner.get groups group = Some names ->
  Forall (fun name => MissionPlanner.get (MissionPlanner.thruster_type vv) name
                      = Some ty) names ->
  MissionPlanner.get (MissionPlanner.thruster_metrics vv) ty = Some m ->
  MissionPlanner.calc_thrust_sum vv group
    = MissionPlanner.Returns (INR (length names) * MissionPlanner.F m)
  /\ MissionPlanner.calc_m_dot_sum vv group
     = MissionPlanner.Returns (INR (length names) * MissionPlanner.mdot m)
  /\ (names = [] ->
      MissionPlanner.calc_v_e vv group = MissionPlanner.ZeroDivisionError)
  /\ (names <> [] -> MissionPlanner.mdot m <> 0 ->
      MissionPlanner.calc_v_e vv group
        = MissionPlanner.Returns (MissionPlanner.F m / MissionPlanner.mdot m)).
Proof.
  intros Hg Hnames Hall Hm.
  assert (Hsum : forall entry,
             MissionPlanner.group_sum entry vv group
               = MissionPlanner.Returns (INR (length names) * entry m)).
  { intros entry. unfold MissionPlanner.group_sum. rewrite Hg, Hnames.
    rewrite (metric_sum_uniform entry vv ty m names Hall Hm). f_equal. ring. }
  unfold MissionPlanner.calc_v_e, MissionPlanner.calc_thrust_sum,
    MissionPlanner.calc_m_dot_sum.
  rewrite !Hsum. split; [reflexivity|]. split; [reflexivity|]. split.
  - intros ->. simpl length. simpl INR. rewrite Rmult_0_l.
    destruct (Req_dec_T 0 0) as [_|H]; [reflexivity | contradiction].
  - intros Hne Hmdot.
    assert (Hn : INR (length names) <> 0).
    { apply not_0_INR. destruct names; [contradiction | discriminate]. }
    destruct (Req_dec_T (INR (length names) * MissionPlanner.mdot m) 0)
      as [Hz|_].
    + apply Rmult_integral in Hz as [Hz|Hz]; contradiction.
    + f_equal. field. split; assumption.
Qed.

Lemma calc_v_e_of_uniform_group_witness :
  MissionPlanner.calc_v_e MissionPlanner.example_vehicle "neg_x"%string
    = MissionPlanner.Returns (100 / (5 / 100)).
Proof.
  apply (calc_v_e_of_uniform_group MissionPlanner.example_vehicle
           [("neg_x"%string, ["T1"%string; "T2"%string]);
            ("pos_pitch"%string, ["T1"%string])]
           "neg_x"%string "A"%string ["T1"%string; "T2"%string]
           (MissionPlanner.Metric 100 (5 / 100))).
  - reflexivity.
  - reflexivity.
  - repeat constructor.
  - reflexivity.
  - discriminate.
  - simpl. lra.
Defined.

Lemma metric_sum_not_unbound (entry : MissionPlanner.thruster_metric -> R)
    (vv : MissionPlanner.vehicle) (names : list String.string) :
  forall acc : R,
    MissionPlanner.metric_sum entry vv names acc
      <> MissionPlanner.UnboundLocalError.
Proof.
  induction names as [|name names IH]; intros acc; simpl.
  - discriminate.
  - destruct (MissionPlanner.get (MissionPlanner.thruster_type vv) name);
      [|discriminate].
    destruct (MissionPlanner.get (MissionPlanner.thruster_metrics vv) s);
      [|discriminate].
    apply IH.
Qed.

Lemma group_sum_not_unbound (entry : MissionPlanner.thruster_metric -> R)
    (vv : MissionPlanner.vehicle) (group : String.string) :
  MissionPlanner.group_sum entry vv group <> MissionPlanner.UnboundLocalError.
Proof.
  unfold MissionPlanner.group_sum.
  destruct (MissionPlanner.rcs_groups vv) as [groups|]; [|discriminate].
  destruct (MissionPlanner.get groups group); [|discriminate].
  apply metric_sum_not_unbound.
Qed.

(** X23. [calc_delta_mass_rotation] binds [dm] only in a forward propagation
    of the group 'pos_pitch' or 'pos_yaw'.  A back propagation, and a forward
    propagation of any other group, end in UnboundLocalError at [return dm],
    and these are the only calls that do. *)
Theorem calc_delta_mass_rotation_unbound (I_y : R -> R -> R -> R)
    (vv : MissionPlanner.vehicle) (dw : R) (group : String.string)
    (forward_propagation : bool) :
  MissionPlanner.calc_delta_mass_rotation I_y vv dw group forward_propagation
    = MissionPlanner.UnboundLocalError
  <-> forward_propagation = false
      \/ (group <> "pos_pitch"%string /\ group <> "pos_yaw"%string).
Proof.
  unfold MissionPlanner.calc_delta_mass_rotation.
  destruct forward_propagation.
  - destruct (String.eqb_spec group "pos_pitch"%string) as [Hp|Hp];
      destruct (String.eqb_spec group "pos_yaw"%string) as [Hy|Hy];
      cbn [orb].
    4: { split; [intros _; right; split; assumption | reflexivity]. }
    all: split; [|intros [H|[H1 H2]]; [discriminate | contradiction]].
    all: intros H; exfalso;
      pose proof (group_sum_not_unbound MissionPlanner.F vv group) as Hts;
      pose proof (group_sum_not_unbound MissionPlanner.mdot vv group) as Hms;
      unfold MissionPlanner.calc_thrust_sum, MissionPlanner.calc_m_dot_sum in H;
      destruct (MissionPlanner.group_sum MissionPlanner.F vv group);
      try discriminate; try contradiction;
      destruct (Req_dec_T _ 0); try discriminate;
      destruct (MissionPlanner.group_sum MissionPlanner.mdot vv group);
      try discriminate; contradiction.
  - split; [intros _; left; reflexivity | reflexivity].
Qed.

(** X24. The propellant of a pitch or yaw step balances the angular
    momentum.  When the two sums of the group are returned, the radius and
    the thrust sum are not zero and the mass flow sum is not zero,
    [calc_delta_mass_rotation] returns a [dm] with
    dm * radius * v_e = I_y * dw, where [v_e] is what [calc_v_e] returns for
    the group, and it takes [dm] off the vehicle mass. *)
Theorem rotation_propellant_balances_momentum (I_y : R -> R -> R -> R)
    (vv : MissionPlanner.vehicle) (dw : R) (group : String.string)
    (thrust_sum m_dot_sum : R) :
  group = "pos_pitch"%string \/ group = "pos_yaw"%string ->
  MissionPlanner.calc_thrust_sum vv group = MissionPlanner.Returns thrust_sum ->
  MissionPlanner.calc_m_dot_sum vv group = MissionPlanner.Returns m_dot_sum ->
  MissionPlanner.radius vv <> 0 ->
  thrust_sum <> 0 ->
  m_dot_sum <> 0 ->
  exists (dm v_e : R) (vv' : MissionPlanner.vehicle),
    MissionPlanner.calc_delta_mass_rotation I_y vv dw group true
      = MissionPlanner.Returns (dm, vv')
    /\ MissionPlanner.calc_v_e vv group = MissionPlanner.Returns v_e
    /\ dm * MissionPlanner.radius vv * v_e
       = I_y (MissionPlanner.mass vv) (MissionPlanner.height vv)
           (MissionPlanner.radius vv) * dw
    /\ MissionPlanner.mass vv' = MissionPlanner.mass vv - dm.
Proof.
  intros Hgroup Hts Hms Hr Ht Hmd.
  unfold MissionPlanner.calc_delta_mass_rotation, MissionPlanner.calc_v_e.
  rewrite Hts, Hms.
  assert (Hsel : (String.eqb group "pos_pitch"%string
                  || String.eqb group "pos_yaw"%string)%bool = true).
  { destruct Hgroup as [-> | ->]; reflexivity. }
  rewrite Hsel.
  destruct (Req_dec_T (MissionPlanner.radius vv * (thrust_sum / 2)) 0)
    as [Hz|_].
  { exfalso. apply Rmult_integral in Hz as [Hz|Hz]; [contradiction|].
    apply Ht. lra. }
  destruct (Req_dec_T m_dot_sum 0) as [Hz|_]; [contradiction|].
  do 3 eexists. split; [reflexivity|]. split; [reflexivity|].
  split; [field; repeat split; assumption | reflexivity].
Qed.

Lemma rotation_propellant_balances_momentum_witness :
  exists (dm : R) (vv' : MissionPlanner.vehicle),
    MissionPlanner.calc_delta_mass_rotation (fun m h r => m * r * r)
      MissionPlanner.example_vehicle (1 / 10000) "pos_pitch"%string true
    = MissionPlanner.Returns (dm, vv').
Proof.
  destruct (rotation_propellant_balances_momentum (fun m h r => m * r * r)
              MissionPlanner.example_vehicle (1 / 10000) "pos_pitch"%string
              (0 + 100) (0 + 5 / 100))
    as (dm & v_e & vv' & H & _).
  - left. reflexivity.
  - reflexivity.
  - reflexivity.
  - simpl. lra.
  - lra.
  - lra.
  - exists dm, vv'. exact H.
Defined.
